(** * ArArud: scansion of Arabic verse (aruudy/poetry/meter.py)

    A shallow embedding of the meter module: the tokenizer [get_ameter], the
    two encodings of a meter ([a2e_meter], [e2a_meter]), the class [Bahr]
    with its registry [buhuur], and the lookups [get_bahr] and [search_bahr].

    Python strings come in two kinds here.  The text handed to the tokenizer
    is scanned one code point at a time and sliced by position, so it is a
    list of code points ([ustring]).  All other strings (meter strings,
    attribute names, names of meters) are only compared, concatenated and
    matched against ASCII patterns; they are kept as [string], a name with
    letters outside ASCII being held in its UTF-8 bytes. *)

From Stdlib Require Import String Ascii List NArith Bool Arith Lia.
Import ListNotations.

Local Open Scope string_scope.
Local Open Scope list_scope.

Infix "+:+" := String.append (at level 60, right associativity).

#[local] Arguments Ascii.eqb : simpl never.

(** ** Python string primitives *)

(** [s.startswith(p)] *)
Fixpoint startswith (s p : string) {struct p} : bool :=
  match p with
  | EmptyString => true
  | String a p' =>
      match s with
      | EmptyString => false
      | String b s' => Ascii.eqb a b && startswith s' p'
      end
  end.

(** [s[n:]] for [0 <= n] *)
Fixpoint drop (n : nat) (s : string) : string :=
  match n, s with
  | O, _ => s
  | S _, EmptyString => EmptyString
  | S k, String _ s' => drop k s'
  end.

(** [old in s]: the scan of [str.replace] for a non-empty [old].  The
    occurrences are found from left to right and do not overlap: [skip] counts
    the characters of the occurrence just replaced that are still to be passed
    over. *)
Fixpoint replace_from (old new : string) (skip : nat) (s : string) : string :=
  match s with
  | EmptyString => EmptyString
  | String c rest =>
      match skip with
      | S k => replace_from old new k rest
      | O =>
          if startswith s old
          then new +:+ replace_from old new (String.length old - 1) rest
          else String c (replace_from old new 0 rest)
      end
  end.

(** With an empty [old], Python puts [new] before every character and at the
    end. *)
Fixpoint replace_empty (new s : string) : string :=
  match s with
  | EmptyString => new
  | String c rest => new +:+ String c (replace_empty new rest)
  end.

(** [s.replace(old, new)] *)
Definition replace (s old new : string) : string :=
  match old with
  | EmptyString => replace_empty new s
  | String _ _ => replace_from old new 0 s
  end.

(** ** The two encodings of a meter *)

Definition a2e_meter (ameter : string) : string :=
  let res := ameter in
  let res := replace res "ws" "-" in
  let res := replace res "w" "u" in
  res.

Definition e2a_meter (emeter : string) : string :=
  let res := emeter in
  let res := replace res "-" "ws" in
  let res := replace res "u" "w" in
  res.

(** ** The tokenizer *)

(** A code point, and a text as Python iterates it. *)
Definition uchar := N.
Definition ustring := list uchar.

(** [re_haraka]: the class of the four marks U+064E (fatha), U+064F (damma),
    U+0650 (kasra) and U+0653, searched in a string of one character. *)
Definition re_haraka (c : uchar) : bool :=
  ((c =? 0x064E) || (c =? 0x064F) || (c =? 0x0650) || (c =? 0x0653))%N.

(** The characters [str.strip()] removes: those Python counts as white space. *)
Definition isspace (c : uchar) : bool :=
  ((0x09 <=? c) && (c <=? 0x0D) || (0x1C <=? c) && (c <=? 0x20)
   || (c =? 0x85) || (c =? 0xA0) || (c =? 0x1680)
   || (0x2000 <=? c) && (c <=? 0x200A)
   || (c =? 0x2028) || (c =? 0x2029) || (c =? 0x202F) || (c =? 0x205F)
   || (c =? 0x3000))%N.

Fixpoint lstrip (s : ustring) : ustring :=
  match s with
  | [] => []
  | c :: s' => if isspace c then lstrip s' else s
  end.

Definition rstrip (s : ustring) : ustring := rev (lstrip (rev s)).

Definition strip (s : ustring) : ustring := rstrip (lstrip s).

(** Truth value of a Python sequence: it is not empty. *)
Definition truthy {A : Type} (l : list A) : bool :=
  match l with
  | [] => false
  | _ :: _ => true
  end.

(** [buf[:-2]] and [buf[-2:]] *)
Definition upto_last2 (b : ustring) : ustring := firstn (length b - 2) b.
Definition last2 (b : ustring) : ustring := skipn (length b - 2) b.

(** The three variables of the loop of [get_ameter]. *)
Record scan := mkScan {
  ameter : string;
  parts : list ustring;
  buf : ustring
}.

Definition scan0 : scan := mkScan EmptyString [] [].

(** One turn of [for c in text]. *)
Definition scan_step (st : scan) (c : uchar) : scan :=
  let buf := buf st ++ [c] in
  if re_haraka c then
    if truthy (strip (upto_last2 buf)) then
      mkScan ((ameter st +:+ "s") +:+ "w")
             ((parts st ++ [upto_last2 buf]) ++ [last2 buf])
             []
    else
      mkScan (ameter st +:+ "w") (parts st ++ [buf]) []
  else
    mkScan (ameter st) (parts st) buf.

Definition scan_text (text : ustring) : scan := fold_left scan_step text scan0.

(** What follows the loop. *)
Definition scan_end (st : scan) : string * list ustring :=
  if truthy (strip (buf st)) then
    (ameter st +:+ "s", parts st ++ [buf st])
  else
    (ameter st, parts st).

Definition get_ameter (text : ustring) : string * list ustring :=
  scan_end (scan_text text).

(** ** Feet (aruudy/poetry/foot.py) *)

(** Modelled from the spec: the module foot.py, with the class [Tafiila], its
    methods [process] and [get_meter] and the table [ZUHAF_ILLA], is not among
    the sources.  A description of one realization of a foot, the dictionary
    with the entries type, mnemonic and emeter that [extract_meter] reads. *)
Record form := mkForm {
  f_type : string;
  f_mnemonic : string;
  f_emeter : string
}.

(** Modelled from the spec: a foot pattern has a canonical shape and an
    ordered list of the realizations it permits, and remembers the one a
    successful match selected. *)
Record Tafiila := mkTafiila {
  canonical : form;
  forms : list form;
  selected : option form
}.

(** Modelled from the spec: [foot.process(text_emeter)] tries the shapes of the
    permitted realizations in list order as a prefix of the text; the first
    that fits is removed from the text and returned with the rest.  When none
    fits the match is empty and the text comes back untouched. *)
Definition process (foot : Tafiila) (text_emeter : string)
  : (option string * string) * Tafiila :=
  match find (fun v => startswith text_emeter (f_emeter v)) (forms foot) with
  | Some v =>
      ((Some (f_emeter v), drop (String.length (f_emeter v)) text_emeter),
       mkTafiila (canonical foot) (forms foot) (Some v))
  | None => ((None, text_emeter), foot)
  end.

(** Modelled from the spec: [foot.get_meter(used)] describes, for [used], the
    realization selected by an earlier match or else the first permitted one,
    and otherwise the canonical one. *)
Definition get_meter (foot : Tafiila) (used : bool) : option form :=
  if used then
    match selected foot with
    | Some v => Some v
    | None => hd_error (forms foot)
    end
  else Some (canonical foot).

(** ** Values, dictionaries and exceptions *)

Inductive exn :=
| BahrError (name : string)
| KeyError (key : string)
| AttributeError (name : string)
| IndexError
| TypeError.

Inductive result (A : Type) :=
| Ok (a : A)
| Raise (e : exn).

Arguments Ok {A} a.
Arguments Raise {A} e.

(** A dictionary keeps its entries in insertion order. *)
Fixpoint dict_get {V : Type} (d : list (string * V)) (k : string) : option V :=
  match d with
  | [] => None
  | (k', v) :: d' => if String.eqb k' k then Some v else dict_get d' k
  end.

(** [d[k] = v] *)
Fixpoint dict_set {V : Type} (d : list (string * V)) (k : string) (v : V)
  : list (string * V) :=
  match d with
  | [] => [(k, v)]
  | (k', v') :: d' =>
      if String.eqb k' k then (k', v) :: d' else (k', v') :: dict_set d' k v
  end.

(** [del d[k]], for a key that is there *)
Fixpoint dict_del {V : Type} (d : list (string * V)) (k : string)
  : list (string * V) :=
  match d with
  | [] => []
  | (k', v') :: d' => if String.eqb k' k then d' else (k', v') :: dict_del d' k
  end.

Set Warnings "-register-all".

(** What the entries of an info dictionary and the attributes of a [Bahr]
    hold: a string, a dictionary of such values, or a meter, that is a list of
    variants, each a list of feet. *)
Inductive value :=
| VStr (s : string)
| VDict (d : list (string * value))
| VMeter (m : list (list Tafiila)).

(** [val == s] for a string [s] *)
Definition value_eq_str (val : value) (s : string) : bool :=
  match val with
  | VStr t => String.eqb t s
  | _ => false
  end.

(** [res[key2]] for a string [key2] *)
Definition subscript (res : value) (key2 : string) : result value :=
  match res with
  | VDict d =>
      match dict_get d key2 with
      | Some v => Ok v
      | None => Raise (KeyError key2)
      end
  | VStr _ => Raise TypeError
  | VMeter _ => Raise TypeError
  end.

(** ** The class Bahr *)

(** An object of the class: the list [self.keys] and the attributes that
    [setattr] stored.  The class keeps its list of keys in the attribute
    [keys] itself; the record holds it apart, which describes the objects
    built from an info that has no entry called keys (and no entry named as a
    method of the class). *)
Record Bahr := mkBahr {
  keys : list string;
  attrs : list (string * value)
}.

Definition setattr (self : Bahr) (key : string) (v : value) : Bahr :=
  mkBahr (keys self) (dict_set (attrs self) key v).

Definition getattr (self : Bahr) (key : string) : result value :=
  match dict_get (attrs self) key with
  | Some v => Ok v
  | None => Raise (AttributeError key)
  end.

Definition keys_append (self : Bahr) (key : string) : Bahr :=
  mkBahr (keys self ++ [key]) (attrs self).

(** [key in self.keys] *)
Definition has_key (self : Bahr) (key : string) : bool :=
  existsb (String.eqb key) (keys self).

(** Truth value of the optional argument [key2]: given and not empty. *)
Definition given (key2 : option string) : option string :=
  match key2 with
  | Some (String c k) => Some (String c k)
  | _ => None
  end.

Definition get_value (self : Bahr) (key : string) (key2 : option string)
  : result value :=
  if negb (has_key self key) then Raise (BahrError key)
  else
    match getattr self key with
    | Raise e => Raise e
    | Ok res =>
        match given key2 with
        | Some k2 => subscript res k2
        | None => Ok res
        end
    end.

(** [value] is the name looked for by [get_bahr], a string. *)
Definition test_property (self : Bahr) (key : string) (value : string)
    (key2 : option string) : result bool :=
  match get_value self key key2 with
  | Raise e => Raise e
  | Ok val => Ok (value_eq_str val value)
  end.

Definition get_names (self : Bahr) : result value := get_value self "name" None.

(** The loop of [to_dict] over [self.keys]. *)
Fixpoint to_dict_loop (self : Bahr) (ks : list string)
    (dic : list (string * value)) : result (list (string * value)) :=
  match ks with
  | [] => Ok dic
  | key :: ks' =>
      match getattr self key with
      | Raise e => Raise e
      | Ok v => to_dict_loop self ks' (dict_set dic key v)
      end
  end.

Definition to_dict (self : Bahr) : result (list (string * value)) :=
  match to_dict_loop self (keys self) [] with
  | Raise e => Raise e
  | Ok dic =>
      match dict_get dic "meter" with
      | Some _ => Ok (dict_del dic "meter")
      | None => Raise (KeyError "meter")
      end
  end.

(** The feet of one variant, tried in turn on what is left of the text.  The
    feet that were tried come back in the state [process] left them in. *)
Fixpoint validate_feet (var : list Tafiila) (text_emeter : string)
    (res : list string) : option (list string) * list Tafiila :=
  match var with
  | [] => (Some res, [])
  | foot :: var' =>
      let '((text_foot, text_emeter'), foot') := process foot text_emeter in
      match text_foot with
      | Some (String c t) =>
          let '(r, var'') :=
            validate_feet var' text_emeter' (res ++ [String c t]) in
          (r, foot' :: var'')
      | _ => (None, foot' :: var')
      end
  end.

(** The variants of a meter, in turn; [if res] lets only a list that is not
    empty through. *)
Fixpoint validate_vars (meter : list (list Tafiila)) (emeter : string)
  : option (list string) * list (list Tafiila) :=
  match meter with
  | [] => (None, [])
  | var :: meter' =>
      let '(res, var') := validate_feet var emeter [] in
      match res with
      | Some (x :: l) => (Some (x :: l), var' :: meter')
      | _ =>
          let '(r, meter'') := validate_vars meter' emeter in
          (r, var' :: meter'')
      end
  end.

(** [self.validate(emeter)].  A meter that is a string or a dictionary is
    iterated as Python does: what it yields are strings, whose characters
    have no method [process]. *)
Definition validate (self : Bahr) (emeter : string)
  : result (option (list string)) * Bahr :=
  match dict_get (attrs self) "meter" with
  | None => (Raise (AttributeError "meter"), self)
  | Some (VMeter m) =>
      let '(r, m') := validate_vars m emeter in
      (Ok r, setattr self "meter" (VMeter m'))
  | Some (VStr s) =>
      (match s with
       | EmptyString => Ok None
       | String _ _ => Raise (AttributeError "process")
       end, self)
  | Some (VDict d) =>
      (if forallb (fun kv => String.eqb (fst kv) EmptyString) d then Ok None
       else Raise (AttributeError "process"), self)
  end.

(** ** Construction and the registry *)

Section Construction.

(** The table [f.ZUHAF_ILLA] of foot.py, from the key of a realization to the
    name of its type. *)
Variable ZUHAF_ILLA : list (string * string).

(** The loop of [extract_meter]: the three strings of [res] and [sep]. *)
Fixpoint extract_loop (feet : list Tafiila) (used : bool)
    (res : string * string * string) (sep : string)
  : result (string * string * string) :=
  match feet with
  | [] => Ok res
  | foot :: feet' =>
      match get_meter foot used with
      | None => Raise IndexError
      | Some meter =>
          match dict_get ZUHAF_ILLA (f_type meter) with
          | None => Raise (KeyError (f_type meter))
          | Some ty =>
              let '(rt, rm, re) := res in
              extract_loop feet' used
                (rt +:+ (sep +:+ ty),
                 rm +:+ (sep +:+ f_mnemonic meter),
                 re +:+ (sep +:+ f_emeter meter))
                (match sep with EmptyString => " " | _ => sep end)
          end
      end
  end.

Definition extract_meter (feet : list Tafiila) (used : bool)
  : result (list (string * value)) :=
  match
    extract_loop feet used (EmptyString, EmptyString, EmptyString) EmptyString
  with
  | Raise e => Raise e
  | Ok (rt, rm, re) =>
      Ok [("type", VStr rt); ("mnemonic", VStr rm); ("emeter", VStr re)]
  end.

(** [self.meter[0]], as far as [extract_meter] can iterate it. *)
Definition first_variant (self : Bahr) : result (list Tafiila) :=
  match dict_get (attrs self) "meter" with
  | None => Raise (AttributeError "meter")
  | Some (VMeter []) => Raise IndexError
  | Some (VMeter (var :: _)) => Ok var
  | Some (VStr EmptyString) => Raise IndexError
  | Some (VStr (String _ _)) => Raise (AttributeError "get_meter")
  | Some (VDict _) => Raise (KeyError "0")
  end.

(** [extract_meter(self.meter[0], used)] with the entry ameter added. *)
Definition scansion (self : Bahr) (used : bool) : result value :=
  match first_variant self with
  | Raise e => Raise e
  | Ok feet =>
      match extract_meter feet used with
      | Raise e => Raise e
      | Ok d =>
          match dict_get d "emeter" with
          | Some (VStr em) => Ok (VDict (dict_set d "ameter" (VStr (e2a_meter em))))
          | _ => Raise TypeError
          end
      end
  end.

(** The loop [for key in info]. *)
Definition init_attrs (info : list (string * value)) : Bahr :=
  fold_left (fun self kv => keys_append (setattr self (fst kv) (snd kv)) (fst kv))
            info (mkBahr [] []).

(** [Bahr(info)] with the registry [buhuur] before the call: the outcome and
    the registry after it.  The object is appended before its scansions are
    computed, so it stays registered when they raise. *)
Definition Bahr_init (info : list (string * value)) (buhuur : list Bahr)
  : result Bahr * list Bahr :=
  let self := init_attrs info in
  match scansion self true with
  | Raise e => (Raise e, buhuur ++ [self])
  | Ok used =>
      let self := keys_append (setattr self "used_scansion" used) "used_scansion" in
      match scansion self false with
      | Raise e => (Raise e, buhuur ++ [self])
      | Ok std =>
          let self := keys_append (setattr self "std_scansion" std) "std_scansion" in
          (Ok self, buhuur ++ [self])
      end
  end.

End Construction.

(** ** Lookup and search in the registry *)

Definition is_ascii_letter (c : ascii) : bool :=
  let n := nat_of_ascii c in
  ((97 <=? n) && (n <=? 122) || (65 <=? n) && (n <=? 90))%nat.

(** [re.match] of a first character in a-z or A-Z. *)
Definition name_type (name : string) : string :=
  match name with
  | String c _ => if is_ascii_letter c then "english" else "arabic"
  | EmptyString => "arabic"
  end.

(** What [get_bahr] hands back for a meter it found. *)
Inductive found :=
| AsDict (d : list (string * value))
| AsBahr (b : Bahr).

Fixpoint get_bahr (buhuur : list Bahr) (name : string) (dic : bool)
  : result (option found) :=
  match buhuur with
  | [] => Ok None
  | b :: rest =>
      match test_property b "name" name (Some (name_type name)) with
      | Raise e => Raise e
      | Ok true =>
          if dic then
            match to_dict b with
            | Raise e => Raise e
            | Ok d => Ok (Some (AsDict d))
            end
          else Ok (Some (AsBahr b))
      | Ok false => get_bahr rest name dic
      end
  end.

(** [search_bahr(emeter)]; the arguments [ameter] and [names] of the source are
    not used by it.  The registry comes back with the feet in the state the
    calls of [validate] left them in. *)
Fixpoint search_bahr (buhuur : list Bahr) (emeter : string)
  : result (option Bahr * option (list string)) * list Bahr :=
  match buhuur with
  | [] => (Ok (None, None), [])
  | b :: rest =>
      let '(r, b') := validate b emeter in
      match r with
      | Raise e => (Raise e, b' :: rest)
      | Ok (Some (x :: l)) => (Ok (Some b', Some (x :: l)), b' :: rest)
      | Ok _ =>
          let '(r', rest') := search_bahr rest emeter in
          (r', b' :: rest')
      end
  end.

(** ** Notions used to state the properties *)

(** A single scan that groups a peg with the cord after it: what the two
    replacements of [a2e_meter] amount to. *)
Fixpoint syllables (s : string) : string :=
  match s with
  | EmptyString => EmptyString
  | String c r =>
      if Ascii.eqb c "w" then
        match r with
        | String d r' =>
            if Ascii.eqb d "s" then String "-" (syllables r')
            else String "u" (syllables r)
        | EmptyString => String "u" EmptyString
        end
      else String c (syllables r)
  end.

(** The expansion of each syllable: what the two replacements of [e2a_meter]
    amount to. *)
Fixpoint expand (s : string) : string :=
  match s with
  | EmptyString => EmptyString
  | String c r =>
      if Ascii.eqb c "-" then String "w" (String "s" (expand r))
      else if Ascii.eqb c "u" then String "w" (expand r)
      else String c (expand r)
  end.

(** Every character of [s] passes the test [p]. *)
Fixpoint all_chars (p : ascii -> bool) (s : string) : bool :=
  match s with
  | EmptyString => true
  | String c r => p c && all_chars p r
  end.

(** The alphabet of the tokenizer. *)
Definition peg_or_cord (c : ascii) : bool := Ascii.eqb c "w" || Ascii.eqb c "s".

(** The characters that are not of the alphabet of syllables. *)
Definition not_syllabic (c : ascii) : bool :=
  negb (Ascii.eqb c "-" || Ascii.eqb c "u").

(** [s.endswith(c)] for one character *)
Fixpoint ends_in (c : ascii) (s : string) : bool :=
  match s with
  | EmptyString => false
  | String d EmptyString => Ascii.eqb d c
  | String _ r => ends_in c r
  end.

(** What is in the buffer when the mark [c] has been added to it, after the
    text [pre] was read. *)
Definition buffered (pre : ustring) (c : uchar) : ustring :=
  buf (scan_text pre) ++ [c].

(** The segment that the turn of the loop reading the mark [c] after [pre]
    appends last: the peg. *)
Definition peg_segment (pre : ustring) (c : uchar) : ustring :=
  last (parts (scan_text (pre ++ [c]))) [].

(** The concatenation of the shapes of a breakdown. *)
Definition joined (res : list string) : string :=
  fold_right String.append EmptyString res.

(** A shape is one that the foot permits. *)
Definition permits (foot : Tafiila) (shape : string) : Prop :=
  exists v, In v (forms foot) /\ f_emeter v = shape.

(** The feet of a variant do not match a text one after the other. *)
Definition rejects (var : list Tafiila) (emeter : string) : Prop :=
  forall x l var', validate_feet var emeter [] <> (Some (x :: l), var').

(** [validate] gives a breakdown for the text. *)
Definition accepts (b : Bahr) (emeter : string) : bool :=
  match fst (validate b emeter) with
  | Ok (Some (_ :: _)) => true
  | _ => false
  end.

(** The attribute meter is a list of variants. *)
Definition proper (b : Bahr) : bool :=
  match dict_get (attrs b) "meter" with
  | Some (VMeter _) => true
  | _ => false
  end.

(** A foot, a value and a meter object without the marks that matches left. *)
Definition fresh_foot (foot : Tafiila) : Tafiila :=
  mkTafiila (canonical foot) (forms foot) None.

Definition fresh_value (v : value) : value :=
  match v with
  | VMeter m => VMeter (map (map fresh_foot) m)
  | _ => v
  end.

Definition fresh (b : Bahr) : Bahr :=
  mkBahr (keys b) (map (fun kv => (fst kv, fresh_value (snd kv))) (attrs b)).

(** The registry after searches for the texts [es], one after the other. *)
Definition searches (buhuur : list Bahr) (es : list string) : list Bahr :=
  fold_left (fun w e => snd (search_bahr w e)) es buhuur.

(** The attribute name is registered and is a dictionary with the entries
    that [name_type] can ask for. *)
Definition well_named (b : Bahr) : bool :=
  has_key b "name" &&
  match dict_get (attrs b) "name" with
  | Some (VDict d) =>
      match dict_get d "english", dict_get d "arabic" with
      | Some _, Some _ => true
      | _, _ => false
      end
  | _ => false
  end.

(** The entry [field] of the name of a meter is the string [name]. *)
Definition name_is (field name : string) (b : Bahr) : bool :=
  match dict_get (attrs b) "name" with
  | Some (VDict d) =>
      match dict_get d field with
      | Some v => value_eq_str v name
      | None => false
      end
  | _ => false
  end.

(** What [get_bahr] makes of the meter it stops at. *)
Definition hand_back (dic : bool) (b : Bahr) : result (option found) :=
  if dic then
    match to_dict b with
    | Raise e => Raise e
    | Ok d => Ok (Some (AsDict d))
    end
  else Ok (Some (AsBahr b)).

(** Every registered key names a stored attribute. *)
Definition keys_stored (b : Bahr) : Prop :=
  forall key, In key (keys b) -> exists v, dict_get (attrs b) key = Some v.

(** The names the class uses itself.  An info with one of them as a key would
    rebind the list of keys or a method; the record [Bahr] describes the
    objects built from the other infos. *)
Definition own_names : list string :=
  ["keys"; "get_names"; "test_property"; "get_value"; "to_dict"; "validate";
   "__class__"; "__dict__"].

Definition plain_info (info : list (string * value)) : bool :=
  forallb (fun kv => negb (existsb (String.eqb (fst kv)) own_names)) info.

(** ** Sample meters *)

(** Modelled from the spec: foot.py is not among the sources, and these
    samples stand in for what it defines.  They are the two feet that the
    meters kaamil and rajz are made of in meter.py.  Each has the canonical
    shape that its class name spells (WWWSWWS is wwwswws) and one classical
    substitution: idhmar turns uu-u- into --u-, khabn turns --u- into u-u-.
    The mnemonics are those of the key verses; the table gives a name to each
    of the three types. *)
Definition sample_ZUHAF_ILLA : list (string * string) :=
  [("salim", "سالم"); ("idhmar", "إضمار"); ("khabn", "خبن")].

Definition WWWSWWS_salim : form :=
  mkForm "salim" "متفاعلن" (a2e_meter "wwwswws").

Definition WWWSWWS_idhmar : form :=
  mkForm "idhmar" "مستفعلن" (a2e_meter "wswswws").

Definition WSWSWWS_salim : form :=
  mkForm "salim" "مستفعلن" (a2e_meter "wswswws").

Definition WSWSWWS_khabn : form :=
  mkForm "khabn" "متفعلن" (a2e_meter "wwswws").

Definition WWWSWWS (vars : list form) : Tafiila :=
  mkTafiila WWWSWWS_salim vars None.

Definition WSWSWWS (vars : list form) : Tafiila :=
  mkTafiila WSWSWWS_salim vars None.

Definition kaamil_info : list (string * value) :=
  [("name", VDict [("arabic", VStr "كامل");
                   ("english", VStr "complete");
                   ("trans", VStr "kāmil")]);
   ("meter", VMeter
      [[WWWSWWS [WWWSWWS_salim; WWWSWWS_idhmar];
        WWWSWWS [WWWSWWS_salim; WWWSWWS_idhmar];
        WWWSWWS [WWWSWWS_salim; WWWSWWS_idhmar]];
       [WWWSWWS [WWWSWWS_salim; WWWSWWS_idhmar];
        WWWSWWS [WWWSWWS_salim; WWWSWWS_idhmar]]]);
   ("key", VStr "كمل الجمال من البحور الكامل متفاعلن متفاعلن متفاعلن")].

Definition rajz_info : list (string * value) :=
  [("name", VDict [("arabic", VStr "رجز");
                   ("english", VStr "trembling");
                   ("trans", VStr "rajaz")]);
   ("meter", VMeter
      [[WSWSWWS [WSWSWWS_salim; WSWSWWS_khabn];
        WSWSWWS [WSWSWWS_salim; WSWSWWS_khabn];
        WSWSWWS [WSWSWWS_salim; WSWSWWS_khabn]]]);
   ("key", VStr "في أبحر الأرجاز بحرٌ يسهل   مستفعلن مستفعلن مستفعلن")].

(** The registry after the two meters were built, kaamil first as in
    meter.py. *)
Definition sample_buhuur : list Bahr :=
  snd (Bahr_init sample_ZUHAF_ILLA rajz_info
         (snd (Bahr_init sample_ZUHAF_ILLA kaamil_info []))).

Definition kaamil : Bahr := nth 0 sample_buhuur (mkBahr [] []).
Definition rajz : Bahr := nth 1 sample_buhuur (mkBahr [] []).

(** ** The names of the catalogue *)

(** The names of the sixteen meters that meter.py registers, in the order of
    their registration: Arabic, English, transliterated. *)
Definition catalogue_names : list (string * string * string) :=
  [("طويل", "long", "ṭawīl");
   ("مديد", "protracted", "madīd");
   ("بسيط", "spread-out", "basīṭ");
   ("وافر", "abundant", "wāfir");
   ("كامل", "complete", "kāmil");
   ("هزج", "trilling", "hazaj");
   ("رجز", "trembling", "rajaz");
   ("رمل", "trotting", "ramal");
   ("سريع", "swift", "sarīʿ");
   ("منسرح", "quick-paced", "munsariħ");
   ("خفيف", "light", "khafīf");
   ("مضارع", "similar", "muḍāriʿ");
   ("مقتضب", "untrained", "muqtaḍab");
   ("مجتث", "cut-off", "mujtathth");
   ("متقارب", "nearing", "mutaqārib");
   ("متدارك", "overtaking", "mutadārik")].

(** The dictionary that a meter of the catalogue has as its name. *)
Definition name_dict (n : string * string * string) : value :=
  let '(a, e, t) := n in
  VDict [("arabic", VStr a); ("english", VStr e); ("trans", VStr t)].

(** The object [b] is registered under the names [n]. *)
Definition named_as (n : string * string * string) (b : Bahr) : Prop :=
  has_key b "name" = true /\ dict_get (attrs b) "name" = Some (name_dict n).

(** The names [n] have [name] in the entry that [name_type] picks for it. *)
Definition names_match (name : string) (n : string * string * string) : bool :=
  match name_dict n with
  | VDict d =>
      match dict_get d (name_type name) with
      | Some v => value_eq_str v name
      | None => false
      end
  | _ => false
  end.

(** The place of the first element that passes a test. *)
Fixpoint find_index {A : Type} (p : A -> bool) (l : list A) : option nat :=
  match l with
  | [] => None
  | x :: l' => if p x then Some 0 else option_map S (find_index p l')
  end.

(** ** The enumerations of the module *)

(** The loop of [_get_values] with its list [values]. *)
Fixpoint get_values_loop (buhuur : list Bahr) (attr1 : string)
    (attr2 : option string) (values : list value) : result (list value) :=
  match buhuur with
  | [] => Ok values
  | b :: rest =>
      match get_value b attr1 attr2 with
      | Raise e => Raise e
      | Ok v => get_values_loop rest attr1 attr2 (values ++ [v])
      end
  end.

Definition _get_values (buhuur : list Bahr) (attr1 : string)
    (attr2 : option string) : result (list value) :=
  get_values_loop buhuur attr1 attr2 [].

(** [get_names()] of the module; the method of the class with that name is
    [get_names] above. *)
Definition buhuur_get_names (buhuur : list Bahr) : result (list value) :=
  _get_values buhuur "name" None.

Definition arabic_names (buhuur : list Bahr) : result (list value) :=
  _get_values buhuur "name" (Some "arabic").

Definition english_names (buhuur : list Bahr) : result (list value) :=
  _get_values buhuur "name" (Some "english").

Definition trans_names (buhuur : list Bahr) : result (list value) :=
  _get_values buhuur "name" (Some "trans").

(** ** Further notions used to state properties *)

(** The number of characters of [s] that pass the test [p]. *)
Fixpoint count_chars (p : ascii -> bool) (s : string) : nat :=
  match s with
  | EmptyString => 0
  | String c r => (if p c then 1 else 0) + count_chars p r
  end.

(** The number of marks in a text. *)
Definition count_marks (text : ustring) : nat :=
  length (filter re_haraka text).

(** What a letter of the meter says of the segment at its place: a peg ends in
    a mark and has no other mark; a cord has no mark and has a character that
    is not white space. *)
Definition segment_of (sym : ascii) (seg : ustring) : Prop :=
  (sym = "w"%char /\
   exists body c, seg = body ++ [c] /\ re_haraka c = true /\
                  existsb re_haraka body = false) \/
  (sym = "s"%char /\ existsb re_haraka seg = false /\
   existsb (fun c => negb (isspace c)) seg = true).

(** No two cords follow each other. *)
Fixpoint cords_apart (s : string) : bool :=
  match s with
  | EmptyString => true
  | String c r =>
      match r with
      | String d _ => negb (Ascii.eqb c "s" && Ascii.eqb d "s")
      | EmptyString => true
      end && cords_apart r
  end.

(** The two marks of the alphabet of syllables. *)
Definition syllabic (c : ascii) : bool := Ascii.eqb c "-" || Ascii.eqb c "u".

(** The strings of [l] with [sep] between them. *)
Fixpoint join_with (sep : string) (l : list string) : string :=
  match l with
  | [] => EmptyString
  | x :: l' =>
      match l' with
      | [] => x
      | _ :: _ => x +:+ (sep +:+ join_with sep l')
      end
  end.

(** The keys of a dictionary are distinct, as those of a Python dictionary
    are. *)
Fixpoint unique_keys {V : Type} (d : list (string * V)) : bool :=
  match d with
  | [] => true
  | (k, _) :: d' =>
      negb (existsb (fun kv => String.eqb (fst kv) k) d') && unique_keys d'
  end.

(** Two dictionaries have the same keys in the same order and the same values
    but for the key meter. *)
Definition alike_but_meter (d d' : list (string * value)) : Prop :=
  Forall2 (fun kv kv' => fst kv = fst kv' /\
                         (fst kv <> "meter" -> snd kv = snd kv')) d d'.

(** Two objects differ in their meter at most. *)
Definition marks_only (b b' : Bahr) : Prop :=
  keys b = keys b' /\ alike_but_meter (attrs b) (attrs b').

(** What the loop keeps: each letter of the meter has its segment, and the
    buffer holds no mark. *)
Definition scan_inv (st : scan) : Prop :=
  Forall2 segment_of (list_ascii_of_string (ameter st)) (parts st) /\
  existsb re_haraka (buf st) = false.

(** Each string of [l] with a space before it. *)
Definition spaced (l : list string) : string :=
  fold_right (fun x acc => " " +:+ (x +:+ acc)) EmptyString l.

(** ** Examples of the encodings and of the tokenizer *)

Example a2e_wswsws : a2e_meter "wswsws" = "---".
Proof. reflexivity. Qed.

Example a2e_wwsws : a2e_meter "wwsws" = "u--".
Proof. reflexivity. Qed.

Example e2a_long_short : e2a_meter "u--" = "wwsws".
Proof. reflexivity. Qed.

Example replace_no_overlap : replace "aaa" "aa" "b" = "ba".
Proof. reflexivity. Qed.

(** kataba, fully vocalized: three pegs. *)
Example get_ameter_kataba :
  get_ameter [0x643; 0x64E; 0x62A; 0x64E; 0x628; 0x64E]%N
  = ("www", [[0x643; 0x64E]; [0x62A; 0x64E]; [0x628; 0x64E]]%N).
Proof. reflexivity. Qed.

(** A cord before the first peg, and white space kept in a peg. *)
Example get_ameter_leading_cord :
  get_ameter [0x627; 0x628; 0x64E]%N = ("sw", [[0x627]; [0x628; 0x64E]]%N).
Proof. reflexivity. Qed.

Example get_ameter_leading_space :
  get_ameter [0x20; 0x628; 0x64E]%N = ("w", [[0x20; 0x628; 0x64E]]%N).
Proof. reflexivity. Qed.

(** ** Strings *)

Lemma string_ind2 (P : string -> Prop) :
  P EmptyString ->
  (forall c, P (String c EmptyString)) ->
  (forall c d r, P r -> P (String d r) -> P (String c (String d r))) ->
  forall s, P s.
Proof.
  intros H0 H1 H2 s.
  assert (H : P s /\ forall c, P (String c s)).
  { induction s as [|a s [IHs IHc]].
    - split; [exact H0 | exact H1].
    - split; [apply IHc | intro c; apply H2; [exact IHs | apply IHc]]. }
  exact (proj1 H).
Qed.

Lemma append_nil_r (s : string) : s +:+ EmptyString = s.
Proof. induction s as [|c s IH]; simpl; [reflexivity | now rewrite IH]. Qed.

Lemma append_assoc (a b c : string) : (a +:+ b) +:+ c = a +:+ (b +:+ c).
Proof. induction a as [|x a IH]; simpl; [reflexivity | now rewrite IH]. Qed.

Lemma all_chars_app (p : ascii -> bool) (a b : string) :
  all_chars p (a +:+ b) = all_chars p a && all_chars p b.
Proof.
  induction a as [|x a IH]; simpl; [reflexivity|].
  now rewrite IH, andb_assoc.
Qed.

Lemma startswith_drop (s p : string) :
  startswith s p = true -> s = p +:+ drop (String.length p) s.
Proof.
  revert s; induction p as [|a p IH]; intros s H; simpl in *.
  - reflexivity.
  - destruct s as [|b s]; [discriminate|].
    apply andb_prop in H as [Hab Hp].
    apply Ascii.eqb_eq in Hab; subst b.
    now rewrite <- (IH s Hp).
Qed.

(** ** The replacements as single scans *)

Lemma replace_char_cons (a : ascii) (new : string) (c : ascii) (s : string) :
  replace (String c s) (String a EmptyString) new =
  (if Ascii.eqb a c then new else String c EmptyString)
  +:+ replace s (String a EmptyString) new.
Proof.
  unfold replace; simpl.
  rewrite andb_true_r.
  destruct (Ascii.eqb a c); simpl; reflexivity.
Qed.

Lemma replace_char_app (a : ascii) (new x y : string) :
  replace (x +:+ y) (String a EmptyString) new =
  replace x (String a EmptyString) new +:+ replace y (String a EmptyString) new.
Proof.
  induction x as [|c x IH].
  - reflexivity.
  - change (String c x +:+ y) with (String c (x +:+ y)).
    rewrite !replace_char_cons, IH, append_assoc. reflexivity.
Qed.

Lemma replace_ws_one (c : ascii) :
  replace (String c EmptyString) "ws" "-" = String c EmptyString.
Proof.
  unfold replace; simpl. now rewrite andb_false_r.
Qed.

Lemma replace_ws_two (c d : ascii) (r : string) :
  replace (String c (String d r)) "ws" "-" =
  if Ascii.eqb c "w" && Ascii.eqb d "s"
  then String "-" (replace r "ws" "-")
  else String c (replace (String d r) "ws" "-").
Proof.
  unfold replace.
  cbn [replace_from startswith String.length Nat.sub].
  rewrite andb_true_r, (Ascii.eqb_sym "w" c), (Ascii.eqb_sym "s" d).
  destruct (Ascii.eqb c "w" && Ascii.eqb d "s"); reflexivity.
Qed.

Lemma a2e_meter_syllables (s : string) : a2e_meter s = syllables s.
Proof.
  unfold a2e_meter.
  induction s as [| c | c d r IHr IHdr] using string_ind2.
  - reflexivity.
  - rewrite replace_ws_one, replace_char_cons. cbn [syllables].
    rewrite (Ascii.eqb_sym "w" c).
    destruct (Ascii.eqb c "w"); reflexivity.
  - rewrite replace_ws_two. cbn [syllables].
    destruct (Ascii.eqb_spec c "w") as [->|Hc]; cbn [andb].
    + destruct (Ascii.eqb d "s").
      * rewrite replace_char_cons. rewrite IHr. reflexivity.
      * rewrite replace_char_cons. rewrite IHdr. reflexivity.
    + rewrite replace_char_cons, IHdr.
      destruct (Ascii.eqb_spec "w" c) as [<-|_]; [congruence | reflexivity].
Qed.

Lemma e2a_meter_expand (s : string) : e2a_meter s = expand s.
Proof.
  unfold e2a_meter.
  induction s as [|c s IH].
  - reflexivity.
  - rewrite replace_char_cons, replace_char_app, IH. cbn [expand].
    rewrite (Ascii.eqb_sym "-" c).
    destruct (Ascii.eqb_spec c "-") as [->|Hc].
    + reflexivity.
    + rewrite replace_char_cons, (Ascii.eqb_sym "u" c).
      destruct (Ascii.eqb c "u"); reflexivity.
Qed.

Lemma syllables_two (c d : ascii) (r : string) :
  syllables (String c (String d r)) =
  if Ascii.eqb c "w"
  then if Ascii.eqb d "s" then String "-" (syllables r)
       else String "u" (syllables (String d r))
  else String c (syllables (String d r)).
Proof. reflexivity. Qed.

Lemma expand_cons (c : ascii) (r : string) :
  expand (String c r) =
  if Ascii.eqb c "-" then String "w" (String "s" (expand r))
  else if Ascii.eqb c "u" then String "w" (expand r)
  else String c (expand r).
Proof. reflexivity. Qed.

Lemma expand_syllables (s : string) :
  all_chars not_syllabic s = true -> expand (syllables s) = s.
Proof.
  induction s as [| c | c d r IHr IHdr] using string_ind2; intro H.
  - reflexivity.
  - cbn [syllables]. cbn [all_chars] in H. rewrite andb_true_r in H.
    destruct (Ascii.eqb_spec c "w") as [->|Hc]; [reflexivity|].
    rewrite expand_cons.
    apply negb_true_iff, orb_false_elim in H as [-> ->]. reflexivity.
  - change (all_chars not_syllabic (String c (String d r)))
      with (not_syllabic c && all_chars not_syllabic (String d r)) in H.
    apply andb_prop in H as [Hc Hdr].
    assert (Hr : all_chars not_syllabic r = true).
    { change (not_syllabic d && all_chars not_syllabic r = true) in Hdr.
      now apply andb_prop in Hdr. }
    rewrite syllables_two.
    destruct (Ascii.eqb_spec c "w") as [->|Hcw].
    + destruct (Ascii.eqb d "s") eqn:Hds.
      * apply Ascii.eqb_eq in Hds; subst d.
        rewrite expand_cons. change (Ascii.eqb "-" "-") with true. cbv iota.
        now rewrite (IHr Hr).
      * rewrite expand_cons. change (Ascii.eqb "u" "-") with false.
        change (Ascii.eqb "u" "u") with true. cbv iota. now rewrite (IHdr Hdr).
    + rewrite expand_cons.
      apply negb_true_iff, orb_false_elim in Hc as [-> ->].
      now rewrite (IHdr Hdr).
Qed.

Lemma peg_or_cord_not_syllabic (s : string) :
  all_chars peg_or_cord s = true -> all_chars not_syllabic s = true.
Proof.
  induction s as [|c s IH]; [reflexivity|].
  cbn [all_chars]. intro H. apply andb_prop in H as [Hc Hs].
  rewrite (IH Hs), andb_true_r.
  unfold peg_or_cord in Hc. apply orb_prop in Hc as [Hc|Hc];
    apply Ascii.eqb_eq in Hc; subst c; reflexivity.
Qed.

(** Round trip on the alphabet of the tokenizer. *)
Lemma e2a_a2e_peg_or_cord (s : string) :
  all_chars peg_or_cord s = true -> e2a_meter (a2e_meter s) = s.
Proof.
  intro H. rewrite a2e_meter_syllables, e2a_meter_expand.
  apply expand_syllables, peg_or_cord_not_syllabic, H.
Qed.

(** ** White space and [strip] *)

Lemma lstrip_nil (s : ustring) : lstrip s = [] <-> forallb isspace s = true.
Proof.
  induction s as [|c s IH]; simpl; [tauto|].
  destruct (isspace c); simpl; [exact IH | split; discriminate].
Qed.

Lemma lstrip_snoc (s : ustring) (c : uchar) :
  isspace c = false -> lstrip (s ++ [c]) <> [].
Proof.
  intros Hc H. apply lstrip_nil in H.
  rewrite forallb_app in H. simpl in H. rewrite Hc in H.
  now rewrite andb_false_r in H.
Qed.

Lemma lstrip_head (s : ustring) (c : uchar) (r : ustring) :
  lstrip s = c :: r -> isspace c = false.
Proof.
  induction s as [|a s IH]; simpl; [discriminate|].
  destruct (isspace a) eqn:Ha; [exact IH|].
  intros [= <- _]. exact Ha.
Qed.

Lemma strip_falsy (s : ustring) :
  truthy (strip s) = false <-> forallb isspace s = true.
Proof.
  unfold strip, rstrip.
  destruct (lstrip s) as [|c r] eqn:Hl.
  - simpl. split; [intros _; now apply lstrip_nil | reflexivity].
  - split.
    + intro H. exfalso.
      pose proof (lstrip_head _ _ _ Hl) as Hc.
      destruct (rev (lstrip (rev (c :: r)))) as [|x l] eqn:Hr; [|discriminate].
      apply (f_equal (@rev _)) in Hr. rewrite rev_involutive in Hr. simpl in Hr.
      destruct r as [|d r'] using rev_ind.
      * simpl in Hr. rewrite Hc in Hr. discriminate.
      * clear IHr'. rewrite rev_app_distr in Hr. simpl in Hr.
        revert Hr. change (lstrip ((d :: rev r') ++ [c]) <> []).
        now apply lstrip_snoc.
    + intro H. apply lstrip_nil in H. congruence.
Qed.

(** ** The loop of the tokenizer *)

Lemma scan_text_snoc (pre : ustring) (c : uchar) :
  scan_text (pre ++ [c]) = scan_step (scan_text pre) c.
Proof. unfold scan_text. now rewrite fold_left_app. Qed.

Lemma scan_text_app (pre post : ustring) :
  scan_text (pre ++ post) = fold_left scan_step post (scan_text pre).
Proof. unfold scan_text. now rewrite fold_left_app. Qed.

Lemma last2_split (b : ustring) : upto_last2 b ++ last2 b = b.
Proof. apply firstn_skipn. Qed.

(** The segments and the buffer hold the text read so far. *)
Lemma scan_step_concat (st : scan) (c : uchar) :
  concat (parts (scan_step st c)) ++ buf (scan_step st c) =
  (concat (parts st) ++ buf st) ++ [c].
Proof.
  unfold scan_step.
  destruct (re_haraka c); [|simpl; now rewrite app_assoc].
  destruct (truthy (strip (upto_last2 (buf st ++ [c])))); simpl.
  - rewrite !concat_app. simpl. rewrite !app_nil_r, <- !app_assoc.
    now rewrite last2_split.
  - rewrite concat_app. simpl. now rewrite !app_nil_r, app_assoc.
Qed.

Lemma scan_text_concat (text : ustring) :
  concat (parts (scan_text text)) ++ buf (scan_text text) = text.
Proof.
  induction text as [|c text IH] using rev_ind; [reflexivity|].
  now rewrite scan_text_snoc, scan_step_concat, IH.
Qed.

(** Segments are only ever added at the end. *)
Lemma scan_step_parts (st : scan) (c : uchar) :
  exists more, parts (scan_step st c) = parts st ++ more.
Proof.
  unfold scan_step.
  destruct (re_haraka c); [|exists []; simpl; now rewrite app_nil_r].
  destruct (truthy (strip (upto_last2 (buf st ++ [c])))); simpl.
  - eexists. now rewrite <- app_assoc.
  - eexists. reflexivity.
Qed.

Lemma scan_fold_parts (post : ustring) (st : scan) :
  exists more, parts (fold_left scan_step post st) = parts st ++ more.
Proof.
  revert st; induction post as [|c post IH]; intro st; simpl.
  - exists []. now rewrite app_nil_r.
  - destruct (IH (scan_step st c)) as [m1 H1].
    destruct (scan_step_parts st c) as [m2 H2].
    exists (m2 ++ m1). now rewrite H1, H2, app_assoc.
Qed.

Lemma get_ameter_parts (pre post : ustring) :
  exists more, snd (get_ameter (pre ++ post)) = parts (scan_text pre) ++ more.
Proof.
  unfold get_ameter. rewrite scan_text_app.
  destruct (scan_fold_parts post (scan_text pre)) as [m Hm].
  unfold scan_end.
  destruct (truthy (strip (buf (fold_left scan_step post (scan_text pre))))); simpl.
  - eexists. now rewrite Hm, <- app_assoc.
  - eexists. exact Hm.
Qed.

(** The meter is written with the two letters only. *)
Lemma scan_step_alphabet (st : scan) (c : uchar) :
  all_chars peg_or_cord (ameter st) = true ->
  all_chars peg_or_cord (ameter (scan_step st c)) = true.
Proof.
  intro H. unfold scan_step.
  destruct (re_haraka c); [|exact H].
  destruct (truthy (strip (upto_last2 (buf st ++ [c])))); simpl;
    rewrite !all_chars_app, H; reflexivity.
Qed.

Lemma scan_text_alphabet (text : ustring) :
  all_chars peg_or_cord (ameter (scan_text text)) = true.
Proof.
  induction text as [|c text IH] using rev_ind; [reflexivity|].
  rewrite scan_text_snoc. now apply scan_step_alphabet.
Qed.

Lemma get_ameter_alphabet (text : ustring) :
  all_chars peg_or_cord (fst (get_ameter text)) = true.
Proof.
  unfold get_ameter, scan_end.
  destruct (truthy (strip (buf (scan_text text)))); simpl.
  - now rewrite all_chars_app, scan_text_alphabet.
  - apply scan_text_alphabet.
Qed.


(** ** Cords that no peg takes up *)

Lemma ends_in_tail (c d : ascii) (r : string) :
  ends_in c (String d r) = false -> ends_in c r = false.
Proof. destruct r; [reflexivity | exact (fun H => H)]. Qed.

Lemma syllables_free_cord (pre post : string) :
  ends_in "w" pre = false ->
  syllables (pre +:+ String "s" post) = syllables pre +:+ String "s" (syllables post).
Proof.
  induction pre as [| c | c d r IHr IHdr] using string_ind2; intro H.
  - reflexivity.
  - cbn [ends_in] in H. cbn [String.append]. rewrite syllables_two.
    cbn [syllables]. rewrite H. reflexivity.
  - change (ends_in "w" (String d r) = false) in H.
    pose proof (ends_in_tail _ _ _ H) as Hr.
    change (String c (String d r) +:+ String "s" post)
      with (String c (String d (r +:+ String "s" post))).
    rewrite !syllables_two.
    change (String d (r +:+ String "s" post)) with (String d r +:+ String "s" post).
    rewrite (IHr Hr), (IHdr H).
    destruct (Ascii.eqb c "w"); [destruct (Ascii.eqb d "s")|]; reflexivity.
Qed.

Lemma expand_app (x y : string) : expand (x +:+ y) = expand x +:+ expand y.
Proof.
  induction x as [|c x IH]; [reflexivity|].
  cbn [String.append]. rewrite !expand_cons, IH.
  destruct (Ascii.eqb c "-"); [|destruct (Ascii.eqb c "u")]; reflexivity.
Qed.

Lemma syllables_leading_cord (s : string) :
  startswith s "s" = true -> startswith (syllables s) "s" = true.
Proof.
  destruct s as [|c s]; [discriminate|].
  cbn [startswith]. rewrite andb_true_r. intro H.
  apply Ascii.eqb_eq in H; subst c. reflexivity.
Qed.

Lemma last2_snoc_last (b : ustring) (c d : uchar) :
  last (last2 (b ++ [c])) d = c.
Proof.
  unfold last2. rewrite skipn_app, length_app. simpl.
  replace (length b + 1 - 2 - length b) with 0 by lia.
  simpl. apply last_last.
Qed.


(** ** Matching feet *)

Lemma process_some (foot : Tafiila) (text shape text' : string) (foot' : Tafiila) :
  process foot text = ((Some shape, text'), foot') ->
  permits foot shape /\ text = shape +:+ text'.
Proof.
  unfold process.
  destruct (find _ (forms foot)) as [v|] eqn:Hf; [|discriminate].
  intros [= <- <- _].
  apply find_some in Hf as [Hin Hs].
  split; [exists v; now split | now apply startswith_drop].
Qed.

Lemma joined_app (a b : list string) : joined (a ++ b) = joined a +:+ joined b.
Proof.
  induction a as [|x a IH]; simpl; [reflexivity|].
  now rewrite IH, append_assoc.
Qed.

Lemma validate_feet_some (var : list Tafiila) :
  forall (text : string) (res0 res : list string) (var' : list Tafiila),
  validate_feet var text res0 = (Some res, var') ->
  exists shapes rest,
    res = res0 ++ shapes /\ Forall2 permits var shapes /\
    text = joined shapes +:+ rest.
Proof.
  induction var as [|foot var IH]; intros text res0 res var' H; simpl in H.
  - injection H as <- _. exists [], text. rewrite app_nil_r. repeat split. constructor.
  - destruct (process foot text) as [[text_foot text1] foot1] eqn:Hp.
    destruct text_foot as [[|c t]|]; try discriminate.
    destruct (validate_feet var text1 (res0 ++ [String c t])) as [r var1] eqn:Hv.
    injection H as -> _.
    apply IH in Hv as (shapes & rest & -> & Hall & ->).
    apply process_some in Hp as [Hperm ->].
    exists (String c t :: shapes), rest. split; [now rewrite <- app_assoc|].
    split; [now constructor|].
    simpl. now rewrite append_assoc.
Qed.

Lemma validate_vars_some (m : list (list Tafiila)) :
  forall (emeter : string) (res : list string) (m' : list (list Tafiila)),
  validate_vars m emeter = (Some res, m') ->
  exists pre var post rest,
    m = pre ++ var :: post /\ Forall (fun v => rejects v emeter) pre /\
    Forall2 permits var res /\ res <> [] /\ emeter = joined res +:+ rest.
Proof.
  induction m as [|var m IH]; intros emeter res m' H; simpl in H; [discriminate|].
  destruct (validate_feet var emeter []) as [r var1] eqn:Hv.
  assert (Hnext : (forall x l, r <> Some (x :: l)) ->
                  (let '(r0, m'') := validate_vars m emeter in (r0, var1 :: m''))
                  = (Some res, m') ->
                  exists pre var0 post rest,
                    var :: m = pre ++ var0 :: post /\
                    Forall (fun v => rejects v emeter) pre /\
                    Forall2 permits var0 res /\ res <> [] /\
                    emeter = joined res +:+ rest).
  { intros Hr H'. destruct (validate_vars m emeter) as [r0 m0] eqn:Hm.
    injection H' as -> _.
    apply IH in Hm as (pre & var0 & post & rest & -> & Hpre & Hperm & Hne & Hrest).
    exists (var :: pre), var0, post, rest. split; [reflexivity|].
    split; [|now repeat split].
    constructor; [|exact Hpre].
    intros x l var' Hx. rewrite Hv in Hx. injection Hx as Hx _. now apply (Hr x l). }
  destruct r as [[|x l]|].
  - apply Hnext; [discriminate | exact H].
  - injection H as <- _.
    apply validate_feet_some in Hv as (shapes & rest & Hs & Hperm & Hrest).
    simpl in Hs. subst shapes.
    exists [], var, m, rest. split; [reflexivity|]. split; [constructor|].
    split; [exact Hperm|]. split; [discriminate | exact Hrest].
  - apply Hnext; [discriminate | exact H].
Qed.


(** ** Dictionaries *)

Lemma dict_get_set_same {V : Type} (d : list (string * V)) (k : string) (v : V) :
  dict_get (dict_set d k v) k = Some v.
Proof.
  induction d as [|[k' v'] d IH]; simpl.
  - now rewrite String.eqb_refl.
  - destruct (String.eqb k' k) eqn:E; simpl; rewrite E; [reflexivity | exact IH].
Qed.

Lemma dict_get_set_other {V : Type} (d : list (string * V)) (k k0 : string) (v : V) :
  k0 <> k -> dict_get (dict_set d k v) k0 = dict_get d k0.
Proof.
  intro Hk. induction d as [|[k' v'] d IH]; simpl.
  - destruct (String.eqb_spec k k0); [congruence | reflexivity].
  - destruct (String.eqb_spec k' k) as [->|Hk']; simpl.
    + destruct (String.eqb_spec k k0); [congruence | reflexivity].
    + destruct (String.eqb k' k0); [reflexivity | exact IH].
Qed.

Lemma dict_set_present {V : Type} (d : list (string * V)) (k k0 : string) (v : V) :
  (exists v0, dict_get d k0 = Some v0) ->
  exists v0, dict_get (dict_set d k v) k0 = Some v0.
Proof.
  intros [v0 H]. destruct (String.eqb_spec k0 k) as [->|Hk].
  - exists v. apply dict_get_set_same.
  - exists v0. now rewrite dict_get_set_other.
Qed.

Lemma dict_set_unchanged {V : Type} (d : list (string * V)) (k : string) (v : V) :
  dict_get d k = Some v -> dict_set d k v = d.
Proof.
  induction d as [|[k' v'] d IH]; simpl; [discriminate|].
  destruct (String.eqb k' k); [now intros [= ->] | intro H; now rewrite IH].
Qed.

Lemma dict_get_map {V W : Type} (g : V -> W) (d : list (string * V)) (k : string) :
  dict_get (map (fun kv => (fst kv, g (snd kv))) d) k = option_map g (dict_get d k).
Proof.
  induction d as [|[k' v'] d IH]; simpl; [reflexivity|].
  destruct (String.eqb k' k); [reflexivity | exact IH].
Qed.

Lemma dict_set_map {V W : Type} (g : V -> W) (d : list (string * V)) (k : string) (v : V) :
  map (fun kv => (fst kv, g (snd kv))) (dict_set d k v)
  = dict_set (map (fun kv => (fst kv, g (snd kv))) d) k (g v).
Proof.
  induction d as [|[k' v'] d IH]; simpl; [reflexivity|].
  destruct (String.eqb k' k); simpl; [reflexivity | now rewrite IH].
Qed.

(** ** Access to the attributes *)

Lemma has_key_In (b : Bahr) (key : string) :
  has_key b key = true <-> In key (keys b).
Proof.
  unfold has_key. rewrite existsb_exists. split.
  - intros [k [Hin Hk]]. apply String.eqb_eq in Hk. now subst.
  - intro H. exists key. split; [exact H | apply String.eqb_refl].
Qed.

Lemma get_value_BahrError (b : Bahr) (key : string) (key2 : option string) (name : string) :
  get_value b key key2 = Raise (BahrError name) -> ~ In key (keys b).
Proof.
  unfold get_value. destruct (has_key b key) eqn:Hk; simpl.
  - unfold getattr. destruct (dict_get (attrs b) key) as [v|]; [|discriminate].
    destruct (given key2) as [k2|]; [|discriminate].
    unfold subscript. destruct v as [s|d|m]; try discriminate.
    destruct (dict_get d k2); discriminate.
  - intros _ Hin. apply has_key_In in Hin. congruence.
Qed.

Lemma get_value_unregistered (b : Bahr) (key : string) (key2 : option string) :
  ~ In key (keys b) -> get_value b key key2 = Raise (BahrError key).
Proof.
  intro H. unfold get_value. destruct (has_key b key) eqn:Hk; [|reflexivity].
  apply has_key_In in Hk. contradiction.
Qed.

Lemma get_value_registered (b : Bahr) (key : string) (v : value) :
  In key (keys b) -> dict_get (attrs b) key = Some v ->
  get_value b key None = Ok v.
Proof.
  intros Hin Hv. apply has_key_In in Hin.
  unfold get_value, getattr. now rewrite Hin, Hv.
Qed.

(** ** The constructor keeps every key stored *)

Lemma keys_stored_set (b : Bahr) (key : string) (v : value) :
  keys_stored b -> keys_stored (keys_append (setattr b key v) key).
Proof.
  intros H k Hin. simpl in *. apply in_app_or in Hin as [Hin|[<-|[]]].
  - apply dict_set_present, H, Hin.
  - exists v. apply dict_get_set_same.
Qed.

Lemma init_attrs_keys_stored (info : list (string * value)) :
  keys_stored (init_attrs info).
Proof.
  unfold init_attrs.
  assert (H : forall self, keys_stored self ->
            keys_stored (fold_left
              (fun self kv => keys_append (setattr self (fst kv) (snd kv)) (fst kv))
              info self)).
  { induction info as [|kv info IH]; intros self Hs; simpl; [exact Hs|].
    apply IH, keys_stored_set, Hs. }
  apply H. intros k [].
Qed.

Lemma Bahr_init_keys_stored (ZI : list (string * string))
    (info : list (string * value)) (buhuur : list Bahr) (b : Bahr) (buhuur' : list Bahr) :
  Bahr_init ZI info buhuur = (Ok b, buhuur') -> keys_stored b.
Proof.
  unfold Bahr_init.
  destruct (scansion ZI (init_attrs info) true) as [used|]; [|discriminate].
  destruct (scansion ZI _ false) as [std|]; [|discriminate].
  intros [= <- _].
  apply keys_stored_set, keys_stored_set, init_attrs_keys_stored.
Qed.

Lemma Bahr_init_registers (ZI : list (string * string))
    (info : list (string * value)) (buhuur : list Bahr) (b : Bahr) (buhuur' : list Bahr) :
  Bahr_init ZI info buhuur = (Ok b, buhuur') -> buhuur' = buhuur ++ [b].
Proof.
  unfold Bahr_init.
  destruct (scansion ZI (init_attrs info) true) as [used|]; [|discriminate].
  destruct (scansion ZI _ false) as [std|]; [|discriminate].
  now intros [= <- <-].
Qed.



(** ** Lookup by name *)

Lemma name_type_cases (name : string) :
  name_type name = "english" \/ name_type name = "arabic".
Proof.
  destruct name as [|c s]; simpl; [now right|].
  destruct (is_ascii_letter c); [now left | now right].
Qed.

Lemma test_property_name (b : Bahr) (name : string) :
  well_named b = true ->
  test_property b "name" name (Some (name_type name))
  = Ok (name_is (name_type name) name b).
Proof.
  unfold well_named, test_property, get_value, getattr, name_is.
  intro H. apply andb_prop in H as [Hk Hd]. rewrite Hk. simpl.
  destruct (dict_get (attrs b) "name") as [[s|d|m]|]; try discriminate.
  destruct (dict_get d "english") as [ve|] eqn:He; [|discriminate].
  destruct (dict_get d "arabic") as [va|] eqn:Ha; [|discriminate].
  destruct (name_type_cases name) as [-> | ->]; simpl.
  - now rewrite He.
  - now rewrite Ha.
Qed.


(** ** The marks that matches leave do not count *)

Lemma cons_inv {A : Type} (a b : A) (l l' : list A) :
  a :: l = b :: l' -> a = b /\ l = l'.
Proof. intros [= -> ->]. now split. Qed.

Lemma process_fresh (f1 f2 : Tafiila) (text : string) :
  fresh_foot f1 = fresh_foot f2 ->
  fst (process f1 text) = fst (process f2 text) /\
  fresh_foot (snd (process f1 text)) = fresh_foot (snd (process f2 text)).
Proof.
  unfold fresh_foot, process. intros [= Hc Hf]. rewrite Hf.
  destruct (find _ (forms f2)); simpl; split; congruence.
Qed.

Lemma process_keeps (foot : Tafiila) (text : string) :
  fresh_foot (snd (process foot text)) = fresh_foot foot.
Proof.
  unfold process. destruct (find _ (forms foot)); reflexivity.
Qed.

Lemma validate_feet_fresh (v1 : list Tafiila) :
  forall (v2 : list Tafiila) (text : string) (res : list string),
  map fresh_foot v1 = map fresh_foot v2 ->
  fst (validate_feet v1 text res) = fst (validate_feet v2 text res).
Proof.
  induction v1 as [|f1 v1 IH]; intros [|f2 v2] text res H; try discriminate.
  - reflexivity.
  - cbn [map] in H. apply cons_inv in H as [Hf Hv]. cbn [validate_feet].
    destruct (process_fresh f1 f2 text Hf) as [Hp _].
    destruct (process f1 text) as [[tf1 t1] f1'].
    destruct (process f2 text) as [[tf2 t2] f2'].
    simpl in Hp. injection Hp as <- <-.
    destruct tf1 as [[|c t]|]; try reflexivity.
    specialize (IH v2 t1 (res ++ [String c t]) Hv).
    destruct (validate_feet v1 t1 _), (validate_feet v2 t1 _). exact IH.
Qed.

Lemma validate_feet_keeps (var : list Tafiila) :
  forall (text : string) (res : list string),
  map fresh_foot (snd (validate_feet var text res)) = map fresh_foot var.
Proof.
  induction var as [|foot var IH]; intros text res; [reflexivity|].
  simpl. pose proof (process_keeps foot text) as Hp.
  destruct (process foot text) as [[tf t1] foot']. simpl in Hp.
  destruct tf as [[|c t]|]; simpl; try now rewrite Hp.
  specialize (IH t1 (res ++ [String c t])).
  destruct (validate_feet var t1 _). simpl in *. now rewrite Hp, IH.
Qed.

Lemma validate_vars_fresh (m1 : list (list Tafiila)) :
  forall (m2 : list (list Tafiila)) (emeter : string),
  map (map fresh_foot) m1 = map (map fresh_foot) m2 ->
  fst (validate_vars m1 emeter) = fst (validate_vars m2 emeter).
Proof.
  induction m1 as [|v1 m1 IH]; intros [|v2 m2] emeter H; try discriminate.
  - reflexivity.
  - cbn [map] in H. apply cons_inv in H as [Hv Hm]. cbn [validate_vars].
    pose proof (validate_feet_fresh v1 v2 emeter [] Hv) as Hf.
    destruct (validate_feet v1 emeter []) as [r1 v1'].
    destruct (validate_feet v2 emeter []) as [r2 v2'].
    simpl in Hf. subst r2.
    specialize (IH m2 emeter Hm).
    destruct (validate_vars m1 emeter) as [q1 n1], (validate_vars m2 emeter) as [q2 n2].
    simpl in IH. subst q2.
    destruct r1 as [[|x l]|]; reflexivity.
Qed.

Lemma validate_vars_keeps (m : list (list Tafiila)) (emeter : string) :
  map (map fresh_foot) (snd (validate_vars m emeter)) = map (map fresh_foot) m.
Proof.
  induction m as [|var m IH]; [reflexivity|].
  simpl. pose proof (validate_feet_keeps var emeter []) as Hf.
  destruct (validate_feet var emeter []) as [r var']. simpl in Hf.
  destruct (validate_vars m emeter) as [r0 m0]. simpl in IH.
  destruct r as [[|x l]|]; simpl; now rewrite Hf, ?IH.
Qed.

Lemma fresh_meter (b1 b2 : Bahr) :
  fresh b1 = fresh b2 ->
  option_map fresh_value (dict_get (attrs b1) "meter")
  = option_map fresh_value (dict_get (attrs b2) "meter").
Proof.
  unfold fresh. intros [= _ Ha].
  rewrite <- !(dict_get_map fresh_value). now rewrite Ha.
Qed.

Lemma validate_fresh (b1 b2 : Bahr) (emeter : string) :
  fresh b1 = fresh b2 ->
  fst (validate b1 emeter) = fst (validate b2 emeter).
Proof.
  intro H. apply fresh_meter in H. unfold validate.
  destruct (dict_get (attrs b1) "meter") as [[s1|d1|m1]|],
           (dict_get (attrs b2) "meter") as [[s2|d2|m2]|];
    simpl in H; try discriminate; try (injection H as <-); try reflexivity.
  injection H as H.
  pose proof (validate_vars_fresh m1 m2 emeter H) as Hv.
  destruct (validate_vars m1 emeter) as [q1 n1], (validate_vars m2 emeter) as [q2 n2].
  simpl in *. now subst.
Qed.

Lemma validate_keeps (b : Bahr) (emeter : string) :
  fresh (snd (validate b emeter)) = fresh b.
Proof.
  unfold validate.
  destruct (dict_get (attrs b) "meter") as [[s|d|m]|] eqn:Hm; try reflexivity.
  pose proof (validate_vars_keeps m emeter) as Hk.
  destruct (validate_vars m emeter) as [r m']. simpl in *.
  unfold fresh, setattr. simpl. f_equal.
  rewrite dict_set_map. apply dict_set_unchanged.
  rewrite dict_get_map, Hm. simpl. now rewrite Hk.
Qed.

Lemma validate_proper (b : Bahr) (emeter : string) :
  proper b = true -> exists r, fst (validate b emeter) = Ok r.
Proof.
  unfold proper, validate.
  destruct (dict_get (attrs b) "meter") as [[s|d|m]|]; try discriminate.
  intros _. destruct (validate_vars m emeter) as [r m']. now exists r.
Qed.

Lemma accepts_fresh (b1 b2 : Bahr) (emeter : string) :
  fresh b1 = fresh b2 -> accepts b1 emeter = accepts b2 emeter.
Proof.
  intro H. unfold accepts. now rewrite (validate_fresh b1 b2 emeter H).
Qed.

(** ** The search in the registry *)

Lemma search_bahr_keeps (buhuur : list Bahr) (emeter : string) :
  map fresh (snd (search_bahr buhuur emeter)) = map fresh buhuur.
Proof.
  induction buhuur as [|b rest IH]; [reflexivity|].
  cbn [search_bahr].
  pose proof (validate_keeps b emeter) as Hb.
  destruct (validate b emeter) as [r b']. simpl in Hb.
  destruct (search_bahr rest emeter) as [r' rest']. simpl in IH.
  destruct r as [[[|x l]|]|e]; simpl; now rewrite Hb, ?IH.
Qed.

Lemma searches_keeps (es : list string) :
  forall buhuur, map fresh (searches buhuur es) = map fresh buhuur.
Proof.
  unfold searches.
  induction es as [|e es IH]; intro buhuur; [reflexivity|].
  simpl. rewrite IH. apply search_bahr_keeps.
Qed.

(** The search stops at the first meter that accepts the text. *)
Lemma search_bahr_stops (pre : list Bahr) :
  forall (b : Bahr) (post : list Bahr) (emeter : string),
  forallb proper pre = true ->
  forallb (fun b0 => negb (accepts b0 emeter)) pre = true ->
  accepts b emeter = true ->
  exists res b',
    validate b emeter = (Ok (Some res), b') /\
    fst (search_bahr (pre ++ b :: post) emeter) = Ok (Some b', Some res) /\
    nth_error (snd (search_bahr (pre ++ b :: post) emeter)) (length pre) = Some b'.
Proof.
  induction pre as [|b0 pre IH]; intros b post emeter Hp Hn Ha.
  - unfold accepts in Ha. cbn [app search_bahr length].
    destruct (validate b emeter) as [r b']. simpl in Ha.
    destruct r as [[[|x l]|]|e]; try discriminate.
    exists (x :: l), b'. repeat split.
  - simpl in Hp, Hn. apply andb_prop in Hp as [Hp0 Hp]. apply andb_prop in Hn as [Hn0 Hn].
    destruct (IH b post emeter Hp Hn Ha) as (res & b' & Hv & Hs & Hnth).
    exists res, b'. split; [exact Hv|].
    cbn [app search_bahr length].
    destruct (validate_proper b0 emeter Hp0) as [r0 Hr0].
    unfold accepts in Hn0.
    destruct (validate b0 emeter) as [r b0']. simpl in Hr0, Hn0. subst r.
    destruct (search_bahr (pre ++ b :: post) emeter) as [r' rest'].
    simpl in Hs, Hnth.
    destruct r0 as [[|x l]|]; try discriminate; simpl; now split.
Qed.

(** The first index at which a test holds. *)
Lemma first_index {A : Type} (p : A -> bool) (l : list A) :
  forall (i : nat) (a : A),
  nth_error l i = Some a -> p a = true ->
  exists k pre b post,
    k <= i /\ l = pre ++ b :: post /\ length pre = k /\
    forallb (fun x => negb (p x)) pre = true /\ p b = true.
Proof.
  induction l as [|x l IH]; intros i a Hi Ha.
  - destruct i; discriminate.
  - destruct (p x) eqn:Hx.
    + exists 0, [], x, l. repeat split; [lia | exact Hx].
    + destruct i as [|i]; [simpl in Hi; injection Hi as ->; congruence|].
      simpl in Hi. destruct (IH i a Hi Ha) as (k & pre & b & post & Hk & -> & Hl & Hn & Hb).
      exists (S k), (x :: pre), b, post. repeat split; simpl; try lia.
      * now rewrite Hx.
      * exact Hb.
Qed.

Lemma proper_fresh (b1 b2 : Bahr) :
  fresh b1 = fresh b2 -> proper b1 = proper b2.
Proof.
  intro H. apply fresh_meter in H. unfold proper.
  destruct (dict_get (attrs b1) "meter") as [[s1|d1|m1]|],
           (dict_get (attrs b2) "meter") as [[s2|d2|m2]|];
    simpl in H; try discriminate; reflexivity.
Qed.

Lemma forallb_fresh (q : Bahr -> bool) (l1 : list Bahr) :
  (forall b1 b2, fresh b1 = fresh b2 -> q b1 = q b2) ->
  forall l2, map fresh l1 = map fresh l2 -> forallb q l1 = forallb q l2.
Proof.
  intro Hq. induction l1 as [|b1 l1 IH]; intros [|b2 l2] H; try discriminate.
  - reflexivity.
  - cbn [map] in H. apply cons_inv in H as [Hb Hl].
    simpl. now rewrite (Hq b1 b2 Hb), (IH l2 Hl).
Qed.

Lemma map_fresh_split (w : list Bahr) (pre : list Bahr) (b : Bahr) (post : list Bahr) :
  map fresh w = map fresh (pre ++ b :: post) ->
  exists pre' b' post',
    w = pre' ++ b' :: post' /\ map fresh pre' = map fresh pre /\
    fresh b' = fresh b /\ length pre' = length pre.
Proof.
  rewrite map_app. cbn [map]. intro H.
  apply map_eq_app in H as (pre' & rest & -> & Hpre & Hrest).
  apply map_eq_cons in Hrest as (b' & post' & -> & Hb & _).
  exists pre', b', post'. repeat split; try assumption.
  apply (f_equal (@length _)) in Hpre. now rewrite !length_map in Hpre.
Qed.


(** ** Lookup in the catalogue *)

Lemma test_property_named (n : string * string * string) (b : Bahr) (name : string) :
  named_as n b ->
  test_property b "name" name (Some (name_type name)) = Ok (names_match name n).
Proof.
  intros [Hk Hd]. unfold test_property, get_value, getattr, names_match.
  rewrite Hk, Hd. destruct n as [[a e] t].
  destruct (name_type_cases name) as [-> | ->]; reflexivity.
Qed.

Lemma get_bahr_named (names : list (string * string * string)) (buhuur : list Bahr)
    (name : string) (dic : bool) :
  Forall2 named_as names buhuur ->
  get_bahr buhuur name dic =
    match find_index (names_match name) names with
    | Some i =>
        match nth_error buhuur i with
        | Some b => hand_back dic b
        | None => Ok None
        end
    | None => Ok None
    end.
Proof.
  induction 1 as [|n b names buhuur Hn _ IH]; [reflexivity|].
  cbn [get_bahr find_index]. rewrite (test_property_named n b name Hn).
  destruct (names_match name n); [reflexivity|].
  rewrite IH. destruct (find_index (names_match name) names); reflexivity.
Qed.

(** In a registry that holds the sixteen meters of meter.py under their names,
    each meter is found by its English and by its Arabic name, and by its
    transliterated name no meter is found. *)
Lemma get_bahr_catalogue (buhuur : list Bahr) (i : nat) (b : Bahr)
    (a e t : string) :
  Forall2 named_as catalogue_names buhuur ->
  nth_error catalogue_names i = Some (a, e, t) ->
  nth_error buhuur i = Some b ->
  get_bahr buhuur e false = Ok (Some (AsBahr b)) /\
  get_bahr buhuur a false = Ok (Some (AsBahr b)) /\
  get_bahr buhuur t false = Ok None /\
  get_bahr buhuur t true = Ok None.
Proof.
  intros Hreg Hi Hb.
  rewrite !(get_bahr_named catalogue_names buhuur _ _ Hreg).
  do 16 (destruct i as [|i];
         [injection Hi as <- <- <-; vm_compute find_index; cbv iota;
          rewrite Hb; repeat split; reflexivity|]).
  destruct i; discriminate Hi.
Qed.

(** The constructor registers a meter of the catalogue under its names,
    whatever its feet are. *)
Lemma Bahr_init_named (ZI : list (string * string))
    (n : string * string * string) (m : value) (k : string)
    (buhuur : list Bahr) :
  exists b,
    snd (Bahr_init ZI [("name", name_dict n); ("meter", m); ("key", VStr k)]
           buhuur) = buhuur ++ [b] /\
    named_as n b.
Proof.
  unfold Bahr_init.
  destruct (scansion ZI _ true) as [used|e1].
  - destruct (scansion ZI _ false) as [std|e2];
      (eexists; split; [reflexivity | split; reflexivity]).
  - eexists; split; [reflexivity | split; reflexivity].
Qed.

(** * The properties of the specification *)

(** C1 (amended).  When [validate] gives a breakdown, the meter of the object
    is a list of variants, the breakdown comes from the first variant whose
    feet all match (the variants before it are rejected), each shape is one
    that the foot at its place permits, the breakdown is not empty, and the
    shapes concatenate to a prefix of the text: some rest may follow. *)
Theorem validate_matches_prefix (b : Bahr) (emeter : string)
    (res : list string) (b' : Bahr) :
  validate b emeter = (Ok (Some res), b') ->
  exists m pre var post rest,
    dict_get (attrs b) "meter" = Some (VMeter m) /\
    m = pre ++ var :: post /\
    Forall (fun v => rejects v emeter) pre /\
    Forall2 permits var res /\
    res <> [] /\
    emeter = joined res +:+ rest.
Proof.
  unfold validate. intro H.
  destruct (dict_get (attrs b) "meter") as [[s|d|m]|] eqn:Hm.
  - destruct s; discriminate.
  - destruct (forallb _ d); discriminate.
  - destruct (validate_vars m emeter) as [r m'] eqn:Hv.
    injection H as -> _.
    apply validate_vars_some in Hv
      as (pre & var & post & rest & H1 & H2 & H3 & H4 & H5).
    exists m, pre, var, post, rest. repeat split; assumption.
  - discriminate.
Qed.

(** C1, an instance: four feet of kaamil, of which the meter takes three. *)
Lemma validate_matches_prefix_witness :
  validate kaamil "uu-u-uu-u-uu-u-uu-u-"
  = (Ok (Some ["uu-u-"; "uu-u-"; "uu-u-"]),
     snd (validate kaamil "uu-u-uu-u-uu-u-uu-u-")) /\
  exists m pre var post rest,
    dict_get (attrs kaamil) "meter" = Some (VMeter m) /\
    m = pre ++ var :: post /\
    Forall (fun v => rejects v "uu-u-uu-u-uu-u-uu-u-") pre /\
    Forall2 permits var ["uu-u-"; "uu-u-"; "uu-u-"] /\
    ["uu-u-"; "uu-u-"; "uu-u-"] <> [] /\
    "uu-u-uu-u-uu-u-uu-u-" = joined ["uu-u-"; "uu-u-"; "uu-u-"] +:+ rest.
Proof.
  split; [reflexivity|].
  exact (validate_matches_prefix kaamil "uu-u-uu-u-uu-u-uu-u-"
           ["uu-u-"; "uu-u-"; "uu-u-"]
           (snd (validate kaamil "uu-u-uu-u-uu-u-uu-u-")) eq_refl).
Defined.

(** C1 as stated fails: for a text of four feet kaamil gives the breakdown of
    its three feet, which does not concatenate to the text; the fourth foot
    is left over. *)
Lemma validate_leaves_rest :
  fst (validate kaamil "uu-u-uu-u-uu-u-uu-u-")
  = Ok (Some ["uu-u-"; "uu-u-"; "uu-u-"]) /\
  joined ["uu-u-"; "uu-u-"; "uu-u-"] <> "uu-u-uu-u-uu-u-uu-u-" /\
  ~ (forall b emeter res b',
       validate b emeter = (Ok (Some res), b') -> joined res = emeter).
Proof.
  split; [reflexivity|]. split; [discriminate|].
  intro H.
  specialize (H kaamil "uu-u-uu-u-uu-u-uu-u-" _ _ eq_refl).
  discriminate H.
Qed.

(** C2.  For the meter [s] that [get_ameter] gives for any text,
    [e2a_meter (a2e_meter s)] is [s]. *)
Theorem e2a_a2e_get_ameter (text : ustring) :
  e2a_meter (a2e_meter (fst (get_ameter text))) = fst (get_ameter text).
Proof. apply e2a_a2e_peg_or_cord, get_ameter_alphabet. Qed.

(** C3 (amended).  In a registry of meters with a name dictionary,
    [get_bahr] compares the name with one entry only, the English one when the
    name starts with an ASCII letter and the Arabic one otherwise, and hands
    back the first meter in registration order whose entry is the name (as a
    dictionary when [dic] is set), or [None] when there is no such meter.  The
    transliterated names are not looked at. *)
Theorem get_bahr_first (buhuur : list Bahr) (name : string) (dic : bool) :
  forallb well_named buhuur = true ->
  (name_type name = "english" \/ name_type name = "arabic") /\
  get_bahr buhuur name dic =
    match find (name_is (name_type name) name) buhuur with
    | Some b => hand_back dic b
    | None => Ok None
    end.
Proof.
  intro H. split; [apply name_type_cases|].
  induction buhuur as [|b rest IH]; [reflexivity|].
  simpl in H. apply andb_prop in H as [Hb Hrest].
  cbn [get_bahr find]. rewrite (test_property_name b name Hb).
  destruct (name_is (name_type name) name b); [reflexivity | exact (IH Hrest)].
Qed.

(** C3, instances: an English name, an Arabic name, and a name of no meter. *)
Lemma get_bahr_first_witness :
  forallb well_named sample_buhuur = true /\
  get_bahr sample_buhuur "trembling" false = Ok (Some (AsBahr rajz)) /\
  get_bahr sample_buhuur "كامل" false = Ok (Some (AsBahr kaamil)) /\
  get_bahr sample_buhuur "waltz" false = Ok None.
Proof.
  split; [reflexivity|].
  split; [|split].
  - rewrite (proj2 (get_bahr_first sample_buhuur "trembling" false eq_refl)).
    reflexivity.
  - rewrite (proj2 (get_bahr_first sample_buhuur "كامل" false eq_refl)).
    reflexivity.
  - rewrite (proj2 (get_bahr_first sample_buhuur "waltz" false eq_refl)).
    reflexivity.
Defined.

(** C3 as stated fails for the transliterated name: rajz is registered with
    the transliterated name rajaz, and looking that name up finds nothing. *)
Lemma get_bahr_trans_not_found :
  In rajz sample_buhuur /\
  name_is "trans" "rajaz" rajz = true /\
  get_bahr sample_buhuur "rajaz" false = Ok None /\
  get_bahr sample_buhuur "rajaz" true = Ok None /\
  ~ (forall buhuur b field name,
       In b buhuur -> In field ["english"; "arabic"; "trans"] ->
       name_is field name b = true ->
       exists b', find (name_is field name) buhuur = Some b' /\
                  get_bahr buhuur name false = Ok (Some (AsBahr b'))).
Proof.
  split; [right; left; reflexivity|].
  split; [reflexivity|]. split; [reflexivity|]. split; [reflexivity|].
  intro H.
  destruct (H sample_buhuur rajz "trans" "rajaz") as [b' [_ Hb]].
  - right; left; reflexivity.
  - right; right; left; reflexivity.
  - reflexivity.
  - discriminate Hb.
Qed.

(** C4 (amended).  The turn of the loop that reads a mark [c] ends the list of
    segments with the peg, whose last character is [c] and which stays in the
    result of [get_ameter] whatever text follows.  When the buffer before its
    last two characters has a character that is not white space, that part is
    appended as a cord and the peg is the last two characters.  Otherwise the
    peg is the whole buffer: white space before the pair is not dropped, it
    is kept at the front of the peg. *)
Theorem peg_segment_shape (pre : ustring) (c : uchar) (post : ustring) :
  re_haraka c = true ->
  peg_segment pre c =
    (if truthy (strip (upto_last2 (buffered pre c)))
     then last2 (buffered pre c) else buffered pre c)
  /\ (truthy (strip (upto_last2 (buffered pre c))) = true ->
      parts (scan_text (pre ++ [c])) =
      parts (scan_text pre)
      ++ [upto_last2 (buffered pre c); last2 (buffered pre c)])
  /\ (truthy (strip (upto_last2 (buffered pre c))) = false ->
      forallb isspace (upto_last2 (buffered pre c)) = true /\
      peg_segment pre c
      = upto_last2 (buffered pre c) ++ last2 (buffered pre c) /\
      parts (scan_text (pre ++ [c])) = parts (scan_text pre) ++ [buffered pre c])
  /\ last (peg_segment pre c) 0%N = c
  /\ exists before after,
       parts (scan_text (pre ++ [c])) = before ++ [peg_segment pre c] /\
       snd (get_ameter (pre ++ c :: post)) = before ++ peg_segment pre c :: after.
Proof.
  intro Hc.
  assert (Hout : exists more, snd (get_ameter (pre ++ c :: post)) =
                              parts (scan_text (pre ++ [c])) ++ more).
  { replace (pre ++ c :: post) with ((pre ++ [c]) ++ post)
      by now rewrite <- app_assoc.
    apply get_ameter_parts. }
  destruct Hout as [more Hout]. rewrite Hout. clear Hout.
  unfold peg_segment, buffered. rewrite scan_text_snoc.
  unfold scan_step. rewrite Hc.
  destruct (truthy (strip (upto_last2 (buf (scan_text pre) ++ [c])))) eqn:Ht;
    cbn [parts]; rewrite last_last.
  - split; [reflexivity|]. split; [intros _; now rewrite <- app_assoc|].
    split; [discriminate|]. split; [apply last2_snoc_last|].
    eexists; exists more. split; [reflexivity|]. now rewrite <- !app_assoc.
  - split; [reflexivity|]. split; [discriminate|].
    split; [intros _|split; [apply last_last|]].
    + split; [now apply strip_falsy|].
      split; [now rewrite last2_split | reflexivity].
    + eexists; exists more. split; [reflexivity|]. now rewrite <- !app_assoc.
Qed.

(** C4, instances: a peg after a space and a peg after a cord. *)
Lemma peg_segment_shape_witness :
  re_haraka 0x64E%N = true /\
  peg_segment [0x20; 0x628]%N 0x64E%N = [0x20; 0x628; 0x64E]%N /\
  peg_segment [0x627; 0x628]%N 0x64E%N = [0x628; 0x64E]%N.
Proof.
  split; [reflexivity|]. split.
  - exact (proj1 (peg_segment_shape [0x20; 0x628]%N 0x64E%N [] eq_refl)).
  - exact (proj1 (peg_segment_shape [0x627; 0x628]%N 0x64E%N [] eq_refl)).
Defined.

(** C4 as stated fails: for a space, a letter and a mark the one segment is
    the whole buffer of three characters, the space included, not its last
    two characters. *)
Lemma peg_segment_not_last2 :
  snd (get_ameter [0x20; 0x628; 0x64E]%N) = [[0x20; 0x628; 0x64E]%N] /\
  peg_segment [0x20; 0x628]%N 0x64E%N = [0x20; 0x628; 0x64E]%N /\
  last2 (buffered [0x20; 0x628]%N 0x64E%N) = [0x628; 0x64E]%N /\
  ~ (forall pre c, re_haraka c = true ->
       peg_segment pre c = last2 (buffered pre c)).
Proof.
  split; [reflexivity|]. split; [reflexivity|]. split; [reflexivity|].
  intro H. specialize (H [0x20; 0x628]%N 0x64E%N eq_refl). discriminate H.
Qed.

(** C5.  The segments that [get_ameter] gives concatenate, in order, to the
    text without a last part that is white space only: nothing else of the
    text is missing. *)
Theorem get_ameter_parts_concat (text : ustring) :
  exists dropped : ustring,
    forallb isspace dropped = true /\
    concat (snd (get_ameter text)) ++ dropped = text.
Proof.
  unfold get_ameter, scan_end.
  destruct (truthy (strip (buf (scan_text text)))) eqn:Hb; simpl.
  - exists []. split; [reflexivity|].
    rewrite concat_app. simpl. rewrite !app_nil_r. apply scan_text_concat.
  - exists (buf (scan_text text)). split.
    + now apply strip_falsy.
    + apply scan_text_concat.
Qed.

(** C6.  In a registry of meters whose attribute meter is a list of variants,
    when two registered meters accept a text, [search_bahr] hands back the
    first meter in registration order that accepts it, which is registered
    before the second of the two, with the breakdown that meter gives.  After
    any searches made before, the answer is the meter at the same place with
    the same breakdown. *)
Theorem search_bahr_registered_first (buhuur : list Bahr) (emeter : string)
    (i j : nat) (bi bj : Bahr) (es : list string) :
  forallb proper buhuur = true ->
  nth_error buhuur i = Some bi ->
  nth_error buhuur j = Some bj ->
  i < j ->
  accepts bi emeter = true ->
  accepts bj emeter = true ->
  exists k bk res b' b'',
    k <= i /\ k < j /\
    nth_error buhuur k = Some bk /\
    (forall n b, n < k -> nth_error buhuur n = Some b ->
                 accepts b emeter = false) /\
    validate bk emeter = (Ok (Some res), b') /\
    fst (search_bahr buhuur emeter) = Ok (Some b', Some res) /\
    nth_error (snd (search_bahr buhuur emeter)) k = Some b' /\
    fst (search_bahr (searches buhuur es) emeter) = Ok (Some b'', Some res) /\
    nth_error (snd (search_bahr (searches buhuur es) emeter)) k = Some b'' /\
    fresh b'' = fresh b'.
Proof.
  intros Hproper Hi Hj Hij Hai Haj.
  destruct (first_index (fun b => accepts b emeter) buhuur i bi Hi Hai)
    as (k & pre & bk & post & Hk & Hw & Hlen & Hpre & Hbk).
  assert (Hpp : forallb proper pre = true).
  { rewrite Hw, forallb_app in Hproper. now apply andb_prop in Hproper. }
  destruct (search_bahr_stops pre bk post emeter Hpp Hpre Hbk)
    as (res & b' & Hv & Hs & Hnth).
  pose proof (searches_keeps es buhuur) as Hkeep. rewrite Hw in Hkeep at 2.
  apply map_fresh_split in Hkeep
    as (pre' & bk' & post' & Hw' & Hfpre & Hfb & Hlen').
  assert (Hpp' : forallb proper pre' = true).
  { now rewrite (forallb_fresh proper pre' proper_fresh pre Hfpre). }
  assert (Hpre' : forallb (fun b0 => negb (accepts b0 emeter)) pre' = true).
  { rewrite (forallb_fresh _ pre') with (l2 := pre);
      [exact Hpre | | exact Hfpre].
    intros b1 b2 Hb. now rewrite (accepts_fresh b1 b2 emeter Hb). }
  assert (Hbk' : accepts bk' emeter = true).
  { now rewrite (accepts_fresh bk' bk emeter Hfb). }
  destruct (search_bahr_stops pre' bk' post' emeter Hpp' Hpre' Hbk')
    as (res' & b'' & Hv' & Hs' & Hnth').
  assert (Hres : res' = res).
  { pose proof (validate_fresh bk' bk emeter Hfb) as Hf.
    rewrite Hv, Hv' in Hf. simpl in Hf. now injection Hf. }
  subst res'.
  exists k, bk, res, b', b''.
  rewrite <- Hw in Hs, Hnth. rewrite <- Hw' in Hs', Hnth'.
  rewrite Hlen in Hnth. rewrite Hlen', Hlen in Hnth'.
  split; [exact Hk|]. split; [lia|].
  split; [subst buhuur k; rewrite nth_error_app2, Nat.sub_diag by lia;
          reflexivity|].
  split.
  { intros n b Hn Hnb. subst buhuur k.
    rewrite nth_error_app1 in Hnb by exact Hn.
    apply nth_error_In in Hnb.
    rewrite forallb_forall in Hpre. apply Hpre in Hnb.
    now apply negb_true_iff in Hnb. }
  repeat (split; [assumption|]).
  pose proof (validate_keeps bk emeter) as H1. rewrite Hv in H1.
  pose proof (validate_keeps bk' emeter) as H2. rewrite Hv' in H2.
  simpl in H1, H2. congruence.
Qed.

(** C6, an instance: three feet that kaamil accepts through a substitution and
    rajz in its canonical form, searched anew after two other searches. *)
Lemma search_bahr_registered_first_witness :
  (forallb proper sample_buhuur = true /\
   accepts kaamil "--u---u---u-" = true /\
   accepts rajz "--u---u---u-" = true) /\
  exists k bk res b' b'',
    k <= 0 /\ k < 1 /\
    nth_error sample_buhuur k = Some bk /\
    (forall n b, n < k -> nth_error sample_buhuur n = Some b ->
                 accepts b "--u---u---u-" = false) /\
    validate bk "--u---u---u-" = (Ok (Some res), b') /\
    fst (search_bahr sample_buhuur "--u---u---u-") = Ok (Some b', Some res) /\
    nth_error (snd (search_bahr sample_buhuur "--u---u---u-")) k = Some b' /\
    fst (search_bahr (searches sample_buhuur ["uu-u-uu-u-"; "--u---u---u-"])
           "--u---u---u-") = Ok (Some b'', Some res) /\
    nth_error (snd (search_bahr
                      (searches sample_buhuur ["uu-u-uu-u-"; "--u---u---u-"])
                      "--u---u---u-")) k = Some b'' /\
    fresh b'' = fresh b'.
Proof.
  split; [repeat split|].
  exact (search_bahr_registered_first sample_buhuur "--u---u---u-"
           0 1 kaamil rajz ["uu-u-uu-u-"; "--u---u---u-"]
           eq_refl eq_refl eq_refl (le_n 1) eq_refl eq_refl).
Defined.

(** C7.  When [validate] gives [None] for every registered meter,
    [search_bahr] returns the pair of [None] and [None]; it raises
    nothing. *)
Theorem search_bahr_no_match (buhuur : list Bahr) (emeter : string) :
  (forall b, In b buhuur -> fst (validate b emeter) = Ok None) ->
  fst (search_bahr buhuur emeter) = Ok (None, None).
Proof.
  induction buhuur as [|b rest IH]; intro H; [reflexivity|].
  cbn [search_bahr].
  pose proof (H b (or_introl eq_refl)) as Hb.
  destruct (validate b emeter) as [r b'].
  simpl in Hb. subst r.
  assert (Hrest : fst (search_bahr rest emeter) = Ok (None, None)).
  { apply IH. intros b0 Hin. apply H. now right. }
  destruct (search_bahr rest emeter) as [r' rest']. exact Hrest.
Qed.

(** C7, an instance: a text that neither sample meter accepts. *)
Lemma search_bahr_no_match_witness :
  fst (search_bahr sample_buhuur "u-u") = Ok (None, None).
Proof.
  apply search_bahr_no_match.
  intros b [<-|[<-|[]]]; reflexivity.
Defined.

(** C8.  For an object that the constructor built, [get_value] with a key
    alone raises [BahrError] exactly when the key is not among the keys of
    the object; for a key among them it returns the attribute stored under
    it. *)
Theorem get_value_BahrError_iff (ZI : list (string * string))
    (info : list (string * value)) (buhuur : list Bahr) (b : Bahr)
    (buhuur' : list Bahr) (key : string) :
  plain_info info = true ->
  Bahr_init ZI info buhuur = (Ok b, buhuur') ->
  (get_value b key None = Raise (BahrError key) <-> ~ In key (keys b)) /\
  (In key (keys b) ->
   exists v, dict_get (attrs b) key = Some v /\ get_value b key None = Ok v).
Proof.
  intros _ Hb. apply Bahr_init_keys_stored in Hb. split.
  - split; [apply get_value_BahrError | apply get_value_unregistered].
  - intro Hin. destruct (Hb key Hin) as [v Hv].
    exists v. split; [exact Hv | now apply get_value_registered].
Qed.

(** C8, instances: a key of kaamil and a name that is no key of it. *)
Lemma get_value_BahrError_iff_witness :
  (plain_info kaamil_info = true /\
   Bahr_init sample_ZUHAF_ILLA kaamil_info [] = (Ok kaamil, [kaamil])) /\
  (get_value kaamil "rhyme" None = Raise (BahrError "rhyme")
   <-> ~ In "rhyme" (keys kaamil)) /\
  (In "key" (keys kaamil) ->
   exists v, dict_get (attrs kaamil) "key" = Some v /\
             get_value kaamil "key" None = Ok v).
Proof.
  split; [split; reflexivity|].
  split.
  - exact (proj1 (get_value_BahrError_iff sample_ZUHAF_ILLA kaamil_info []
                    kaamil [kaamil] "rhyme" eq_refl eq_refl)).
  - exact (proj2 (get_value_BahrError_iff sample_ZUHAF_ILLA kaamil_info []
                    kaamil [kaamil] "key" eq_refl eq_refl)).
Defined.

(** C9.  [a2e_meter] leaves a cord that follows no peg as it is, and
    [e2a_meter] leaves it as it is on the way back.  So when the meter that
    [get_ameter] gives starts with a cord, its syllabic form starts with the
    letter s, which is neither of the two syllable marks, and the round trip
    gives the meter back all the same. *)
Theorem a2e_meter_free_cord (text : ustring) (pre post : string) :
  startswith (fst (get_ameter text)) "s" = true ->
  ends_in "w" pre = false ->
  a2e_meter (pre +:+ "s" +:+ post) = a2e_meter pre +:+ "s" +:+ a2e_meter post
  /\ e2a_meter (a2e_meter pre +:+ "s" +:+ a2e_meter post)
     = e2a_meter (a2e_meter pre) +:+ "s" +:+ e2a_meter (a2e_meter post)
  /\ startswith (a2e_meter (fst (get_ameter text))) "s" = true
  /\ all_chars (fun c => Ascii.eqb c "-" || Ascii.eqb c "u")
       (a2e_meter (fst (get_ameter text))) = false
  /\ e2a_meter (a2e_meter (fst (get_ameter text))) = fst (get_ameter text).
Proof.
  intros Hs Hpre.
  assert (Hsyl : startswith (a2e_meter (fst (get_ameter text))) "s" = true).
  { rewrite a2e_meter_syllables. now apply syllables_leading_cord. }
  repeat split.
  - rewrite !a2e_meter_syllables. now apply syllables_free_cord.
  - rewrite !e2a_meter_expand, !expand_app. reflexivity.
  - exact Hsyl.
  - destruct (a2e_meter (fst (get_ameter text))) as [|c r]; [discriminate|].
    cbn [startswith] in Hsyl. rewrite andb_true_r in Hsyl.
    apply Ascii.eqb_eq in Hsyl. subst c. reflexivity.
  - apply e2a_a2e_peg_or_cord, get_ameter_alphabet.
Qed.

(** C9, an instance: a letter without a mark before a vocalized letter gives
    the meter sw, whose syllabic form is su. *)
Lemma a2e_meter_free_cord_witness :
  (startswith (fst (get_ameter [0x627; 0x628; 0x64E]%N)) "s" = true /\
   ends_in "w" "ws" = false) /\
  a2e_meter (fst (get_ameter [0x627; 0x628; 0x64E]%N)) = "su" /\
  a2e_meter ("ws" +:+ "s" +:+ "w") = a2e_meter "ws" +:+ "s" +:+ a2e_meter "w" /\
  e2a_meter (a2e_meter (fst (get_ameter [0x627; 0x628; 0x64E]%N)))
  = fst (get_ameter [0x627; 0x628; 0x64E]%N).
Proof.
  split; [split; reflexivity|]. split; [reflexivity|].
  pose proof (a2e_meter_free_cord [0x627; 0x628; 0x64E]%N "ws" "w"
                eq_refl eq_refl) as H.
  split; [exact (proj1 H) | exact (proj2 (proj2 (proj2 (proj2 H))))].
Defined.

(** C10 (amended).  For a registered key whose attribute is a dictionary and
    a second key that is not empty and is no key of that dictionary,
    [get_value] raises [KeyError], not [BahrError]. *)
Theorem get_value_KeyError (b : Bahr) (key key2 : string)
    (d : list (string * value)) :
  In key (keys b) ->
  dict_get (attrs b) key = Some (VDict d) ->
  key2 <> EmptyString ->
  dict_get d key2 = None ->
  get_value b key (Some key2) = Raise (KeyError key2).
Proof.
  intros Hin Hd Hk2 Hmiss. apply has_key_In in Hin.
  unfold get_value, getattr. rewrite Hin, Hd. simpl.
  destruct key2 as [|c k]; [congruence|].
  simpl. now rewrite Hmiss.
Qed.

(** C10, an instance: the name of kaamil has no entry latin. *)
Lemma get_value_KeyError_witness :
  get_value kaamil "name" (Some "latin") = Raise (KeyError "latin").
Proof.
  apply (get_value_KeyError kaamil "name" "latin"
           [("arabic", VStr "كامل"); ("english", VStr "complete");
            ("trans", VStr "kāmil")]).
  - vm_compute. tauto.
  - reflexivity.
  - discriminate.
  - reflexivity.
Defined.

(** C10 as stated fails for the empty string: it is no key of the name
    dictionary of kaamil, and [get_value] returns the whole dictionary. *)
Lemma get_value_empty_key2 :
  get_value kaamil "name" (Some EmptyString) =
    Ok (VDict [("arabic", VStr "كامل"); ("english", VStr "complete");
               ("trans", VStr "kāmil")]) /\
  ~ (forall b key key2 d,
       In key (keys b) ->
       dict_get (attrs b) key = Some (VDict d) ->
       dict_get d key2 = None ->
       get_value b key (Some key2) = Raise (KeyError key2)).
Proof.
  split; [reflexivity|].
  intro H.
  specialize (H kaamil "name" EmptyString
                [("arabic", VStr "كامل"); ("english", VStr "complete");
                 ("trans", VStr "kāmil")]).
  assert (Hin : In "name" (keys kaamil)) by (vm_compute; tauto).
  specialize (H Hin eq_refl eq_refl). discriminate H.
Qed.

(** * Further properties of the code *)

(** ** More on the loop of the tokenizer *)

Lemma chars_app (a b : string) :
  list_ascii_of_string (a +:+ b)
  = list_ascii_of_string a ++ list_ascii_of_string b.
Proof. induction a as [|c a IH]; simpl; [reflexivity | now rewrite IH]. Qed.

Lemma existsb_not_forallb {A : Type} (p : A -> bool) (l : list A) :
  existsb (fun x => negb (p x)) l = negb (forallb p l).
Proof.
  induction l as [|x l IH]; simpl; [reflexivity|].
  rewrite IH. now destruct (p x).
Qed.

Lemma strip_truthy (s : ustring) :
  truthy (strip s) = true <-> existsb (fun c => negb (isspace c)) s = true.
Proof.
  rewrite existsb_not_forallb, negb_true_iff.
  rewrite <- not_true_iff_false, <- strip_falsy, not_false_iff_true.
  reflexivity.
Qed.

Lemma upto_last2_snoc (b : ustring) (c : uchar) :
  upto_last2 (b ++ [c]) = firstn (length b - 1) b.
Proof.
  unfold upto_last2. rewrite length_app. simpl.
  replace (length b + 1 - 2) with (length b - 1) by lia.
  rewrite firstn_app. replace (length b - 1 - length b) with 0 by lia.
  simpl. apply app_nil_r.
Qed.

Lemma last2_snoc (b : ustring) (c : uchar) :
  last2 (b ++ [c]) = skipn (length b - 1) b ++ [c].
Proof.
  unfold last2. rewrite length_app. simpl.
  replace (length b + 1 - 2) with (length b - 1) by lia.
  rewrite skipn_app. replace (length b - 1 - length b) with 0 by lia.
  reflexivity.
Qed.

Lemma existsb_firstn {A : Type} (p : A -> bool) (n : nat) (l : list A) :
  existsb p l = false -> existsb p (firstn n l) = false.
Proof.
  intro H. rewrite <- (firstn_skipn n l), existsb_app in H.
  now apply orb_false_elim in H.
Qed.

Lemma existsb_skipn {A : Type} (p : A -> bool) (n : nat) (l : list A) :
  existsb p l = false -> existsb p (skipn n l) = false.
Proof.
  intro H. rewrite <- (firstn_skipn n l), existsb_app in H.
  now apply orb_false_elim in H.
Qed.

Lemma scan_step_inv (st : scan) (c : uchar) :
  scan_inv st -> scan_inv (scan_step st c).
Proof.
  intros [Hseg Hbuf]. unfold scan_step.
  destruct (re_haraka c) eqn:Hc.
  - destruct (truthy (strip (upto_last2 (buf st ++ [c])))) eqn:Ht;
      split; try reflexivity; cbn [ameter parts].
    + rewrite !chars_app. apply Forall2_app; [apply Forall2_app|].
      * exact Hseg.
      * constructor; [|constructor]. right. split; [reflexivity|].
        rewrite upto_last2_snoc in *. split.
        -- now apply existsb_firstn.
        -- now apply strip_truthy.
      * constructor; [|constructor]. left. split; [reflexivity|].
        rewrite last2_snoc. eexists; exists c. split; [reflexivity|].
        split; [exact Hc | now apply existsb_skipn].
    + rewrite chars_app. apply Forall2_app; [exact Hseg|].
      constructor; [|constructor]. left. split; [reflexivity|].
      exists (buf st), c. repeat split; assumption.
  - split; [exact Hseg|]. cbn [buf]. rewrite existsb_app. simpl.
    now rewrite Hbuf, Hc.
Qed.

Lemma scan_text_inv (text : ustring) : scan_inv (scan_text text).
Proof.
  induction text as [|c text IH] using rev_ind.
  - split; [constructor | reflexivity].
  - rewrite scan_text_snoc. now apply scan_step_inv.
Qed.

(** X1.  The meter and the segments of [get_ameter] go together letter by
    segment: they are equally many, the segment of a peg ends in a mark and
    has no other mark, and the segment of a cord has no mark and has a
    character that is not white space. *)
Theorem get_ameter_segments (text : ustring) :
  Forall2 segment_of (list_ascii_of_string (fst (get_ameter text)))
          (snd (get_ameter text)).
Proof.
  destruct (scan_text_inv text) as [Hseg Hbuf].
  unfold get_ameter, scan_end.
  destruct (truthy (strip (buf (scan_text text)))) eqn:Ht; cbn [fst snd].
  - rewrite chars_app. apply Forall2_app; [exact Hseg|].
    constructor; [|constructor]. right. split; [reflexivity|].
    split; [exact Hbuf | now apply strip_truthy].
  - exact Hseg.
Qed.

(** ** Counting pegs *)

Lemma count_chars_app (p : ascii -> bool) (a b : string) :
  count_chars p (a +:+ b) = count_chars p a + count_chars p b.
Proof.
  induction a as [|c a IH]; simpl; [reflexivity|]. rewrite IH. lia.
Qed.

Lemma count_marks_app (a b : ustring) :
  count_marks (a ++ b) = count_marks a + count_marks b.
Proof. unfold count_marks. now rewrite filter_app, length_app. Qed.

Lemma scan_step_pegs (st : scan) (c : uchar) :
  count_chars (Ascii.eqb "w") (ameter (scan_step st c))
  = count_chars (Ascii.eqb "w") (ameter st) + count_marks [c].
Proof.
  unfold scan_step, count_marks. simpl.
  destruct (re_haraka c); [|simpl; lia].
  destruct (truthy (strip (upto_last2 (buf st ++ [c])))); cbn [ameter];
    rewrite !count_chars_app;
    change (count_chars (Ascii.eqb "w") "s") with 0;
    change (count_chars (Ascii.eqb "w") "w") with 1; simpl; lia.
Qed.

Lemma scan_text_pegs (text : ustring) :
  count_chars (Ascii.eqb "w") (ameter (scan_text text)) = count_marks text.
Proof.
  induction text as [|c text IH] using rev_ind; [reflexivity|].
  now rewrite scan_text_snoc, scan_step_pegs, count_marks_app, IH.
Qed.

(** X2.  The meter of [get_ameter] has as many pegs as the text has
    marks. *)
Theorem get_ameter_pegs (text : ustring) :
  count_chars (Ascii.eqb "w") (fst (get_ameter text)) = count_marks text.
Proof.
  unfold get_ameter, scan_end.
  destruct (truthy (strip (buf (scan_text text)))); cbn [fst].
  - rewrite count_chars_app, scan_text_pegs.
    change (count_chars (Ascii.eqb "w") "s") with 0. lia.
  - apply scan_text_pegs.
Qed.

(** ** A text without marks *)

Lemma scan_text_no_marks (text : ustring) :
  existsb re_haraka text = false -> scan_text text = mkScan EmptyString [] text.
Proof.
  induction text as [|c text IH] using rev_ind; [reflexivity|].
  rewrite existsb_app. simpl. rewrite orb_false_r. intro H.
  apply orb_false_elim in H as [Ht Hc].
  rewrite scan_text_snoc, (IH Ht). unfold scan_step. now rewrite Hc.
Qed.

(** X3.  For a text without marks, the empty text among them, [get_ameter]
    gives one cord with the whole text as its segment when the text has a
    character that is not white space, and the empty meter with no segment
    otherwise. *)
Theorem get_ameter_no_marks (text : ustring) :
  existsb re_haraka text = false ->
  get_ameter text =
    if existsb (fun c => negb (isspace c)) text
    then ("s", [text]) else (EmptyString, []).
Proof.
  intro H. unfold get_ameter. rewrite (scan_text_no_marks text H).
  unfold scan_end. cbn [buf ameter parts].
  destruct (existsb (fun c => negb (isspace c)) text) eqn:He.
  - apply strip_truthy in He. now rewrite He.
  - destruct (truthy (strip text)) eqn:Ht; [|reflexivity].
    apply strip_truthy in Ht. congruence.
Qed.

Lemma get_ameter_no_marks_witness :
  existsb re_haraka [0x20; 0x628; 0x627]%N = false /\
  get_ameter [0x20; 0x628; 0x627]%N = ("s", [[0x20; 0x628; 0x627]%N]) /\
  get_ameter [] = (EmptyString, []) /\
  get_ameter [0x20; 0x0A]%N = (EmptyString, []).
Proof.
  split; [reflexivity|].
  split; [exact (get_ameter_no_marks [0x20; 0x628; 0x627]%N eq_refl)|].
  split; [exact (get_ameter_no_marks [] eq_refl)|].
  exact (get_ameter_no_marks [0x20; 0x0A]%N eq_refl).
Defined.

(** ** Tokenizing piece by piece *)

Lemma scan_step_prefixed (a : string) (p : list ustring) (st : scan) (c : uchar) :
  scan_step (mkScan (a +:+ ameter st) (p ++ parts st) (buf st)) c
  = mkScan (a +:+ ameter (scan_step st c)) (p ++ parts (scan_step st c))
           (buf (scan_step st c)).
Proof.
  unfold scan_step. cbn [ameter parts buf].
  destruct (re_haraka c); [|reflexivity].
  destruct (truthy (strip (upto_last2 (buf st ++ [c])))); cbn [ameter parts buf];
    now rewrite ?append_assoc, <- ?app_assoc.
Qed.

Lemma scan_fold_prefixed (a : string) (p : list ustring) (post : ustring) :
  forall st,
  fold_left scan_step post (mkScan (a +:+ ameter st) (p ++ parts st) (buf st))
  = mkScan (a +:+ ameter (fold_left scan_step post st))
           (p ++ parts (fold_left scan_step post st))
           (buf (fold_left scan_step post st)).
Proof.
  induction post as [|c post IH]; intro st; [reflexivity|].
  cbn [fold_left]. rewrite scan_step_prefixed. apply IH.
Qed.

Lemma scan_step_mark_buf (st : scan) (c : uchar) :
  re_haraka c = true -> buf (scan_step st c) = [].
Proof.
  intro Hc. unfold scan_step. rewrite Hc.
  now destruct (truthy (strip (upto_last2 (buf st ++ [c])))).
Qed.

(** X4.  A text can be tokenized in two pieces at a mark: the meter and the
    segments of the whole are those of the piece up to the mark followed by
    those of the rest. *)
Theorem get_ameter_at_mark (pre : ustring) (c : uchar) (post : ustring) :
  re_haraka c = true ->
  get_ameter (pre ++ c :: post)
  = (fst (get_ameter (pre ++ [c])) +:+ fst (get_ameter post),
     snd (get_ameter (pre ++ [c])) ++ snd (get_ameter post)).
Proof.
  intro Hc.
  replace (pre ++ c :: post) with ((pre ++ [c]) ++ post)
    by now rewrite <- app_assoc.
  pose proof (scan_step_mark_buf (scan_text pre) c Hc) as Hb.
  rewrite <- scan_text_snoc in Hb.
  assert (Hg : get_ameter (pre ++ [c])
               = (ameter (scan_text (pre ++ [c])), parts (scan_text (pre ++ [c])))).
  { unfold get_ameter, scan_end. now rewrite Hb. }
  rewrite Hg. cbn [fst snd].
  unfold get_ameter. rewrite scan_text_app.
  destruct (scan_text (pre ++ [c])) as [a p b].
  cbn [buf ameter parts] in *. subst b.
  pose proof (scan_fold_prefixed a p post scan0) as H.
  cbn [scan0 ameter parts buf] in H. rewrite append_nil_r, app_nil_r in H.
  fold (scan_text post) in H. rewrite H.
  unfold scan_end. cbn [buf ameter parts].
  destruct (truthy (strip (buf (scan_text post)))); cbn [fst snd];
    now rewrite ?append_assoc, <- ?app_assoc.
Qed.

Lemma get_ameter_at_mark_witness :
  re_haraka 0x64E%N = true /\
  get_ameter ([0x643] ++ 0x64E :: [0x627; 0x62A; 0x650; 0x628])%N
  = (fst (get_ameter ([0x643] ++ [0x64E])%N)
     +:+ fst (get_ameter [0x627; 0x62A; 0x650; 0x628]%N),
     snd (get_ameter ([0x643] ++ [0x64E])%N)
     ++ snd (get_ameter [0x627; 0x62A; 0x650; 0x628]%N)).
Proof.
  split; [reflexivity|].
  exact (get_ameter_at_mark [0x643]%N 0x64E%N [0x627; 0x62A; 0x650; 0x628]%N
           eq_refl).
Defined.

(** ** White space around the text *)

Lemma isspace_not_mark (c : uchar) : isspace c = true -> re_haraka c = false.
Proof.
  intro Hs. destruct (re_haraka c) eqn:Hc; [|reflexivity].
  unfold re_haraka in Hc.
  repeat (apply orb_prop in Hc as [Hc|Hc]);
    apply N.eqb_eq in Hc; subst c; discriminate Hs.
Qed.

Lemma truthy_strip (s : ustring) :
  truthy (strip s) = existsb (fun c => negb (isspace c)) s.
Proof.
  destruct (existsb (fun c => negb (isspace c)) s) eqn:He.
  - now apply strip_truthy.
  - destruct (truthy (strip s)) eqn:Ht; [|reflexivity].
    apply strip_truthy in Ht. congruence.
Qed.

Lemma spaces_no_content (ws : ustring) :
  forallb isspace ws = true -> existsb (fun c => negb (isspace c)) ws = false.
Proof. intro H. now rewrite existsb_not_forallb, H. Qed.

Lemma scan_fold_spaces (ws : ustring) :
  forallb isspace ws = true ->
  forall st,
  fold_left scan_step ws st = mkScan (ameter st) (parts st) (buf st ++ ws).
Proof.
  induction ws as [|c ws IH]; intros H st.
  - simpl. rewrite app_nil_r. now destruct st.
  - simpl in H. apply andb_prop in H as [Hc Hws].
    cbn [fold_left]. rewrite (IH Hws). unfold scan_step.
    rewrite (isspace_not_mark c Hc). cbn [ameter parts buf].
    now rewrite <- app_assoc.
Qed.

Lemma upto_last2_spaces (ws b : ustring) (c : uchar) :
  forallb isspace ws = true ->
  truthy (strip (upto_last2 ((ws ++ b) ++ [c])))
  = truthy (strip (upto_last2 (b ++ [c]))).
Proof.
  intro Hws. rewrite !truthy_strip, !upto_last2_snoc.
  destruct b as [|x b].
  - rewrite app_nil_r. simpl.
    destruct (existsb _ (firstn (length ws - 1) ws)) eqn:He; [|reflexivity].
    rewrite existsb_firstn in He; [discriminate | now apply spaces_no_content].
  - rewrite length_app, firstn_app.
    rewrite firstn_all2 by (simpl; lia).
    replace (length ws + length (x :: b) - 1 - length ws)
      with (length (x :: b) - 1) by (simpl; lia).
    rewrite existsb_app, (spaces_no_content ws Hws). reflexivity.
Qed.

(** The run on a text with white space before it, against the run on the
    text. *)
Lemma scan_step_leading (ws : ustring) (st st' : scan) (c : uchar) :
  forallb isspace ws = true ->
  ameter st' = ameter st ->
  buf st' = buf st \/ buf st' = ws ++ buf st ->
  ameter (scan_step st' c) = ameter (scan_step st c) /\
  (buf (scan_step st' c) = buf (scan_step st c) \/
   buf (scan_step st' c) = ws ++ buf (scan_step st c)).
Proof.
  intros Hws Ha Hb. unfold scan_step.
  assert (Ht : truthy (strip (upto_last2 (buf st' ++ [c])))
               = truthy (strip (upto_last2 (buf st ++ [c])))).
  { destruct Hb as [-> | ->]; [reflexivity | now apply upto_last2_spaces]. }
  rewrite Ht, Ha.
  destruct (re_haraka c).
  - destruct (truthy (strip (upto_last2 (buf st ++ [c])))); cbn [ameter buf];
      (split; [reflexivity | now left]).
  - cbn [ameter buf]. split; [reflexivity|].
    destruct Hb as [-> | ->]; [now left | right; now rewrite app_assoc].
Qed.

Lemma scan_fold_leading (ws : ustring) (text : ustring) :
  forallb isspace ws = true ->
  forall st st',
  ameter st' = ameter st ->
  buf st' = buf st \/ buf st' = ws ++ buf st ->
  ameter (fold_left scan_step text st') = ameter (fold_left scan_step text st) /\
  (buf (fold_left scan_step text st') = buf (fold_left scan_step text st) \/
   buf (fold_left scan_step text st') = ws ++ buf (fold_left scan_step text st)).
Proof.
  intro Hws. induction text as [|c text IH]; intros st st' Ha Hb.
  - now split.
  - cbn [fold_left].
    destruct (scan_step_leading ws st st' c Hws Ha Hb) as [Ha' Hb'].
    now apply IH.
Qed.

(** X5.  White space before and after a text does not change its meter. *)
Theorem get_ameter_spaces_around (ws1 text ws2 : ustring) :
  forallb isspace ws1 = true ->
  forallb isspace ws2 = true ->
  fst (get_ameter (ws1 ++ text ++ ws2)) = fst (get_ameter text).
Proof.
  intros H1 H2. unfold get_ameter.
  unfold scan_text at 1. rewrite !fold_left_app.
  rewrite (scan_fold_spaces ws2 H2), (scan_fold_spaces ws1 H1).
  cbn [scan0 ameter parts buf app].
  destruct (scan_fold_leading ws1 text H1 scan0 (mkScan EmptyString [] ws1)
              eq_refl (or_intror (eq_sym (app_nil_r ws1)))) as [Ha Hb].
  fold (scan_text text) in Ha, Hb.
  unfold scan_end. cbn [ameter parts buf].
  rewrite !truthy_strip, Ha.
  assert (He : existsb (fun c => negb (isspace c))
                 (buf (fold_left scan_step text (mkScan EmptyString [] ws1))
                  ++ ws2)
               = existsb (fun c => negb (isspace c)) (buf (scan_text text))).
  { rewrite existsb_app, (spaces_no_content ws2 H2), orb_false_r.
    destruct Hb as [-> | ->]; [reflexivity|].
    now rewrite existsb_app, (spaces_no_content ws1 H1). }
  rewrite He. now destruct (existsb _ (buf (scan_text text))).
Qed.

Lemma get_ameter_spaces_around_witness :
  (forallb isspace [0x20; 0x09]%N = true /\ forallb isspace [0x0A]%N = true) /\
  fst (get_ameter ([0x20; 0x09] ++ [0x643; 0x64E; 0x627] ++ [0x0A])%N) = "ws".
Proof.
  split; [split; reflexivity|].
  exact (eq_trans
           (get_ameter_spaces_around [0x20; 0x09]%N [0x643; 0x64E; 0x627]%N
              [0x0A]%N eq_refl eq_refl)
           eq_refl).
Defined.

(** ** The shape of the meter *)

Lemma ends_in_snoc (c d : ascii) (a : string) :
  ends_in c (a +:+ String d EmptyString) = Ascii.eqb d c.
Proof.
  induction a as [|x a IH]; [reflexivity|].
  cbn [String.append]. destruct a as [|y a]; [reflexivity|exact IH].
Qed.

Lemma cords_apart_cons (c d : ascii) (r : string) :
  cords_apart (String c (String d r))
  = negb (Ascii.eqb c "s" && Ascii.eqb d "s") && cords_apart (String d r).
Proof. reflexivity. Qed.

Lemma cords_apart_snoc (a : string) (d : ascii) :
  cords_apart a = true ->
  ends_in "s" a && Ascii.eqb d "s" = false ->
  cords_apart (a +:+ String d EmptyString) = true.
Proof.
  induction a as [| c | c x r _ IH] using string_ind2; intros Ha He.
  - reflexivity.
  - cbn [String.append]. rewrite cords_apart_cons.
    cbn [ends_in] in He. rewrite He. reflexivity.
  - change (String c (String x r) +:+ String d EmptyString)
      with (String c (String x (r +:+ String d EmptyString))).
    rewrite cords_apart_cons in *.
    apply andb_prop in Ha as [Hc Hr]. rewrite Hc. cbn [andb].
    apply IH; assumption.
Qed.

(** What the loop keeps: no two cords in a row, and no cord at the end. *)
Lemma scan_step_cords (st : scan) (c : uchar) :
  cords_apart (ameter st) = true /\ ends_in "s" (ameter st) = false ->
  cords_apart (ameter (scan_step st c)) = true /\
  ends_in "s" (ameter (scan_step st c)) = false.
Proof.
  intros [Ha He]. unfold scan_step.
  destruct (re_haraka c); [|now split].
  destruct (truthy (strip (upto_last2 (buf st ++ [c])))); cbn [ameter];
    (split; [|apply ends_in_snoc]).
  - apply cords_apart_snoc; [apply cords_apart_snoc|].
    + exact Ha.
    + now rewrite He.
    + apply andb_false_r.
  - apply cords_apart_snoc; [exact Ha | apply andb_false_r].
Qed.

Lemma scan_text_cords (text : ustring) :
  cords_apart (ameter (scan_text text)) = true /\
  ends_in "s" (ameter (scan_text text)) = false.
Proof.
  induction text as [|c text IH] using rev_ind; [now split|].
  rewrite scan_text_snoc. now apply scan_step_cords.
Qed.

Lemma get_ameter_cords (text : ustring) :
  cords_apart (fst (get_ameter text)) = true.
Proof.
  destruct (scan_text_cords text) as [Ha He].
  unfold get_ameter, scan_end.
  destruct (truthy (strip (buf (scan_text text)))); cbn [fst]; [|exact Ha].
  apply cords_apart_snoc; [exact Ha | now rewrite He].
Qed.

(** X6.  The meter of [get_ameter] is written with w and s only and never
    has two cords in a row. *)
Theorem get_ameter_cords_apart (text : ustring) :
  cords_apart (fst (get_ameter text)) = true /\
  all_chars peg_or_cord (fst (get_ameter text)) = true.
Proof. split; [apply get_ameter_cords | apply get_ameter_alphabet]. Qed.

(** ** The alphabet of the syllabic form *)

Lemma syllables_pegs_first (s : string) :
  all_chars peg_or_cord s = true ->
  cords_apart s = true ->
  startswith s "s" = false ->
  all_chars syllabic (syllables s) = true.
Proof.
  induction s as [| c | c d r IHr IHdr] using string_ind2; intros Hal Hca Hs.
  - reflexivity.
  - cbn [startswith] in Hs. rewrite andb_true_r in Hs.
    cbn [all_chars] in Hal. rewrite andb_true_r in Hal.
    unfold peg_or_cord in Hal. rewrite (Ascii.eqb_sym c "s"), Hs, orb_false_r in Hal.
    cbn [syllables]. rewrite Hal. reflexivity.
  - cbn [startswith] in Hs. rewrite andb_true_r in Hs.
    change (all_chars peg_or_cord (String c (String d r)))
      with (peg_or_cord c && all_chars peg_or_cord (String d r)) in Hal.
    apply andb_prop in Hal as [Hc Hdr].
    unfold peg_or_cord in Hc. rewrite (Ascii.eqb_sym c "s"), Hs, orb_false_r in Hc.
    rewrite cords_apart_cons in Hca. apply andb_prop in Hca as [_ Hcdr].
    rewrite syllables_two, Hc.
    destruct (Ascii.eqb d "s") eqn:Hd.
    + cbn [all_chars]. apply IHr.
      * change (peg_or_cord d && all_chars peg_or_cord r = true) in Hdr.
        now apply andb_prop in Hdr.
      * destruct r as [|x r]; [reflexivity|].
        rewrite cords_apart_cons in Hcdr. now apply andb_prop in Hcdr.
      * destruct r as [|x r]; [reflexivity|].
        rewrite cords_apart_cons, Hd in Hcdr. cbn [andb] in Hcdr.
        apply andb_prop in Hcdr as [Hx _]. apply negb_true_iff in Hx.
        cbn [startswith]. now rewrite andb_true_r, (Ascii.eqb_sym "s" x).
    + cbn [all_chars]. apply IHdr; try assumption.
      cbn [startswith]. now rewrite andb_true_r, (Ascii.eqb_sym "s" d).
Qed.

(** X7.  The syllabic form of the meter of [get_ameter] is written with the
    two syllable marks, but for a cord that may come first. *)
Theorem a2e_meter_get_ameter_alphabet (text : ustring) :
  all_chars syllabic (a2e_meter (fst (get_ameter text))) = true \/
  exists r, a2e_meter (fst (get_ameter text)) = String "s" r /\
            all_chars syllabic r = true.
Proof.
  pose proof (get_ameter_cords text) as Hca.
  pose proof (get_ameter_alphabet text) as Hal.
  rewrite a2e_meter_syllables.
  destruct (fst (get_ameter text)) as [|c r] eqn:Ham; [now left|].
  destruct (Ascii.eqb_spec c "s") as [->|Hc].
  - right. exists (syllables r). split; [reflexivity|].
    cbn [all_chars] in Hal. apply andb_prop in Hal as [_ Hr].
    apply syllables_pegs_first; [exact Hr | |].
    + destruct r as [|x r]; [reflexivity|].
      rewrite cords_apart_cons in Hca. now apply andb_prop in Hca.
    + destruct r as [|x r]; [reflexivity|].
      rewrite cords_apart_cons in Hca. apply andb_prop in Hca as [Hx _].
      change (Ascii.eqb "s" "s") with true in Hx. cbn [andb] in Hx.
      apply negb_true_iff in Hx.
      cbn [startswith]. now rewrite andb_true_r, (Ascii.eqb_sym "s" x).
  - left. apply syllables_pegs_first; [exact Hal | exact Hca |].
    cbn [startswith]. rewrite andb_true_r.
    destruct (Ascii.eqb_spec "s" c); [congruence | reflexivity].
Qed.

(** ** From syllables to pegs and cords and back *)

Lemma expand_syllabic_head (e : string) :
  all_chars syllabic e = true ->
  e = EmptyString \/ exists r, expand e = String "w" r.
Proof.
  destruct e as [|c e]; [now left|]. intro H. right.
  cbn [all_chars] in H. apply andb_prop in H as [Hc _].
  rewrite expand_cons. unfold syllabic in Hc.
  destruct (Ascii.eqb c "-"); [eexists; reflexivity|].
  simpl in Hc. rewrite Hc. eexists; reflexivity.
Qed.

Lemma syllables_expand (e : string) :
  all_chars syllabic e = true -> syllables (expand e) = e.
Proof.
  induction e as [|c e IH]; [reflexivity|]. intro H.
  cbn [all_chars] in H. apply andb_prop in H as [Hc He].
  specialize (IH He). rewrite expand_cons. unfold syllabic in Hc.
  destruct (Ascii.eqb_spec c "-") as [->|Hn].
  - rewrite syllables_two. change (Ascii.eqb "w" "w") with true.
    change (Ascii.eqb "s" "s") with true. cbv iota. now rewrite IH.
  - simpl in Hc. rewrite Hc. apply Ascii.eqb_eq in Hc. subst c.
    destruct (expand_syllabic_head e He) as [-> | [r Hr]]; [reflexivity|].
    rewrite Hr in *. rewrite syllables_two.
    change (Ascii.eqb "w" "w") with true. change (Ascii.eqb "w" "s") with false.
    cbv iota. now rewrite IH.
Qed.

(** X8.  On a string of syllable marks, [a2e_meter] undoes [e2a_meter]. *)
Theorem a2e_e2a_syllabic (emeter : string) :
  all_chars syllabic emeter = true ->
  a2e_meter (e2a_meter emeter) = emeter.
Proof.
  intro H. rewrite a2e_meter_syllables, e2a_meter_expand.
  now apply syllables_expand.
Qed.

Lemma a2e_e2a_syllabic_witness :
  all_chars syllabic "u--u-u-" = true /\
  a2e_meter (e2a_meter "u--u-u-") = "u--u-u-".
Proof.
  split; [reflexivity | exact (a2e_e2a_syllabic "u--u-u-" eq_refl)].
Defined.


(** ** The encodings of a concatenation *)

Lemma syllables_peg_then (y : string) :
  startswith y "s" = false ->
  syllables (String "w" y) = String "u" (syllables y).
Proof.
  destruct y as [|d r]; [reflexivity|]. intro H.
  cbn [startswith] in H. rewrite andb_true_r, (Ascii.eqb_sym "s" d) in H.
  rewrite syllables_two, H. reflexivity.
Qed.

Lemma syllables_app (x y : string) :
  ends_in "w" x && startswith y "s" = false ->
  syllables (x +:+ y) = syllables x +:+ syllables y.
Proof.
  induction x as [| c | c d r IHr IHdr] using string_ind2; intro H.
  - reflexivity.
  - cbn [ends_in] in H. cbn [String.append].
    destruct (Ascii.eqb_spec c "w") as [->|Hc].
    + cbn [andb] in H. now rewrite (syllables_peg_then y H).
    + cbn [syllables]. destruct (Ascii.eqb_spec c "w"); [congruence|].
      reflexivity.
  - change (ends_in "w" (String d r) && startswith y "s" = false) in H.
    change (String c (String d r) +:+ y) with (String c (String d (r +:+ y))).
    rewrite !syllables_two.
    change (String d (r +:+ y)) with (String d r +:+ y).
    rewrite (IHdr H).
    assert (Hr : ends_in "w" r && startswith y "s" = false).
    { destruct r as [|e r]; [reflexivity | exact H]. }
    rewrite (IHr Hr).
    destruct (Ascii.eqb c "w"); [destruct (Ascii.eqb d "s")|]; reflexivity.
Qed.

(** X9.  [a2e_meter] goes through a concatenation when the cut does not
    part a peg from the cord after it. *)
Theorem a2e_meter_app (x y : string) :
  ends_in "w" x && startswith y "s" = false ->
  a2e_meter (x +:+ y) = a2e_meter x +:+ a2e_meter y.
Proof.
  intro H. rewrite !a2e_meter_syllables. now apply syllables_app.
Qed.

Lemma a2e_meter_app_witness :
  ends_in "w" "wwsws" && startswith "wwswsws" "s" = false /\
  a2e_meter ("wwsws" +:+ "wwswsws") = a2e_meter "wwsws" +:+ a2e_meter "wwswsws".
Proof.
  split; [reflexivity|].
  exact (a2e_meter_app "wwsws" "wwswsws" eq_refl).
Defined.

(** X10.  [e2a_meter] goes through every concatenation. *)
Theorem e2a_meter_app (x y : string) :
  e2a_meter (x +:+ y) = e2a_meter x +:+ e2a_meter y.
Proof. rewrite !e2a_meter_expand. apply expand_app. Qed.

(** ** What the constructor stores *)














(** ** The descriptions of a meter *)

Lemma join_with_spaced (x : string) (l : list string) :
  join_with " " (x :: l) = x +:+ spaced l.
Proof.
  revert x. induction l as [|y l IH]; intro x.
  - simpl. now rewrite append_nil_r.
  - change (join_with " " (x :: y :: l))
      with (x +:+ (" " +:+ join_with " " (y :: l))).
    now rewrite IH.
Qed.

Lemma extract_loop_spaced (ZI : list (string * string)) (used : bool)
    (feet : list Tafiila) :
  forall (ms : list form) (tys : list string) (rt rm re : string),
  map (fun foot => get_meter foot used) feet = map Some ms ->
  map (fun m => dict_get ZI (f_type m)) ms = map Some tys ->
  extract_loop ZI feet used (rt, rm, re) " "
  = Ok (rt +:+ spaced tys,
        rm +:+ spaced (map f_mnemonic ms),
        re +:+ spaced (map f_emeter ms)).
Proof.
  induction feet as [|foot feet IH]; intros [|m ms] tys rt rm re Hm Ht;
    try discriminate.
  - destruct tys; [|discriminate]. simpl. now rewrite !append_nil_r.
  - cbn [map] in Hm. apply cons_inv in Hm as [Hm Hms].
    destruct tys as [|ty tys]; [discriminate|].
    cbn [map] in Ht. apply cons_inv in Ht as [Ht Htys].
    cbn [extract_loop]. rewrite Hm, Ht.
    rewrite (IH ms tys _ _ _ Hms Htys).
    cbn [map spaced fold_right]. now rewrite !append_assoc.
Qed.

(** X15.  [extract_meter] joins the descriptions of the feet with single
    spaces, in the order of the feet, with no space before the first or after
    the last; for no feet the three strings are empty. *)
Theorem extract_meter_join (ZI : list (string * string)) (used : bool)
    (feet : list Tafiila) (ms : list form) (tys : list string) :
  map (fun foot => get_meter foot used) feet = map Some ms ->
  map (fun m => dict_get ZI (f_type m)) ms = map Some tys ->
  extract_meter ZI feet used
  = Ok [("type", VStr (join_with " " tys));
        ("mnemonic", VStr (join_with " " (map f_mnemonic ms)));
        ("emeter", VStr (join_with " " (map f_emeter ms)))].
Proof.
  intros Hm Ht. unfold extract_meter.
  destruct feet as [|foot feet].
  - destruct ms; [|discriminate]. destruct tys; [|discriminate]. reflexivity.
  - destruct ms as [|m ms]; [discriminate|].
    cbn [map] in Hm. apply cons_inv in Hm as [Hm Hms].
    destruct tys as [|ty tys]; [discriminate|].
    cbn [map] in Ht. apply cons_inv in Ht as [Ht Htys].
    cbn [extract_loop]. rewrite Hm, Ht.
    cbn [String.append].
    rewrite (extract_loop_spaced ZI used feet ms tys _ _ _ Hms Htys).
    cbn [map]. now rewrite !join_with_spaced.
Qed.

Lemma extract_meter_join_witness :
  extract_meter sample_ZUHAF_ILLA
    [WWWSWWS [WWWSWWS_idhmar]; WWWSWWS [WWWSWWS_salim]] true
  = Ok [("type", VStr (join_with " " ["إضمار"; "سالم"]));
        ("mnemonic", VStr (join_with " " ["مستفعلن"; "متفاعلن"]));
        ("emeter", VStr (join_with " " ["--u-"; "uu-u-"]))].
Proof.
  exact (extract_meter_join sample_ZUHAF_ILLA true
           [WWWSWWS [WWWSWWS_idhmar]; WWWSWWS [WWWSWWS_salim]]
           [WWWSWWS_idhmar; WWWSWWS_salim] ["إضمار"; "سالم"]
           eq_refl eq_refl).
Defined.

(** X16.  [extract_meter] raises [KeyError] with the type of the first foot
    whose type the table does not have. *)
Theorem extract_meter_unknown_type (ZI : list (string * string)) (used : bool)
    (pre : list Tafiila) (foot : Tafiila) (post : list Tafiila)
    (ms : list form) (tys : list string) (m : form) :
  map (fun foot => get_meter foot used) pre = map Some ms ->
  map (fun m => dict_get ZI (f_type m)) ms = map Some tys ->
  get_meter foot used = Some m ->
  dict_get ZI (f_type m) = None ->
  extract_meter ZI (pre ++ foot :: post) used = Raise (KeyError (f_type m)).
Proof.
  intros Hm Ht Hf Hn. unfold extract_meter.
  assert (H : forall res sep,
             extract_loop ZI (pre ++ foot :: post) used res sep
             = Raise (KeyError (f_type m))).
  { clear - Hm Ht Hf Hn. revert ms tys Hm Ht.
    induction pre as [|f pre IH]; intros ms tys Hm Ht res sep.
    - cbn [app extract_loop]. now rewrite Hf, Hn.
    - destruct ms as [|m0 ms]; [discriminate|].
      cbn [map] in Hm. apply cons_inv in Hm as [Hm Hms].
      destruct tys as [|ty tys]; [discriminate|].
      cbn [map] in Ht. apply cons_inv in Ht as [Ht Htys].
      cbn [app extract_loop]. rewrite Hm, Ht.
      destruct res as [[rt rm] re]. apply (IH ms tys Hms Htys). }
  now rewrite H.
Qed.

Lemma extract_meter_unknown_type_witness :
  extract_meter [("salim", "s")]
    ([WWWSWWS [WWWSWWS_salim]] ++ WWWSWWS [WWWSWWS_idhmar] :: []) true
  = Raise (KeyError "idhmar").
Proof.
  exact (extract_meter_unknown_type [("salim", "s")] true
           [WWWSWWS [WWWSWWS_salim]] (WWWSWWS [WWWSWWS_idhmar]) []
           [WWWSWWS_salim] ["s"] WWWSWWS_idhmar
           eq_refl eq_refl eq_refl eq_refl).
Defined.

(** ** The scansions that the constructor adds *)

Lemma scansion_shape (ZI : list (string * string)) (self : Bahr) (used : bool)
    (v : value) :
  scansion ZI self used = Ok v ->
  exists rt rm re,
    v = VDict [("type", VStr rt); ("mnemonic", VStr rm); ("emeter", VStr re);
               ("ameter", VStr (e2a_meter re))].
Proof.
  unfold scansion, extract_meter.
  destruct (first_variant self) as [feet|]; [|discriminate].
  destruct (extract_loop ZI feet used _ _) as [[[rt rm] re]|]; [|discriminate].
  cbn. intros [= <-]. now exists rt, rm, re.
Qed.

(** X17.  In both scansions of a built object the entry ameter is
    [e2a_meter] of the entry emeter. *)
Theorem Bahr_init_scansions (ZI : list (string * string))
    (info : list (string * value)) (buhuur : list Bahr) (b : Bahr)
    (buhuur' : list Bahr) :
  Bahr_init ZI info buhuur = (Ok b, buhuur') ->
  exists used std,
    get_value b "used_scansion" (Some "emeter") = Ok (VStr used) /\
    get_value b "used_scansion" (Some "ameter") = Ok (VStr (e2a_meter used)) /\
    get_value b "std_scansion" (Some "emeter") = Ok (VStr std) /\
    get_value b "std_scansion" (Some "ameter") = Ok (VStr (e2a_meter std)).
Proof.
  unfold Bahr_init.
  destruct (scansion ZI (init_attrs info) true) as [vu|] eqn:Hu; [|discriminate].
  destruct (scansion ZI _ false) as [vs|] eqn:Hs; [|discriminate].
  intros [= <- _].
  apply scansion_shape in Hu as (rt & rm & re & ->).
  apply scansion_shape in Hs as (st & sm & se & ->).
  exists re, se.
  assert (Hk1 : has_key
            (keys_append (setattr (keys_append (setattr (init_attrs info)
               "used_scansion" (VDict [("type", VStr rt); ("mnemonic", VStr rm);
                  ("emeter", VStr re); ("ameter", VStr (e2a_meter re))]))
               "used_scansion") "std_scansion"
               (VDict [("type", VStr st); ("mnemonic", VStr sm);
                  ("emeter", VStr se); ("ameter", VStr (e2a_meter se))]))
               "std_scansion") "used_scansion" = true).
  { apply has_key_In. cbn [keys keys_append setattr].
    apply in_or_app. left. apply in_or_app. right. now left. }
  assert (Hk2 : has_key
            (keys_append (setattr (keys_append (setattr (init_attrs info)
               "used_scansion" (VDict [("type", VStr rt); ("mnemonic", VStr rm);
                  ("emeter", VStr re); ("ameter", VStr (e2a_meter re))]))
               "used_scansion") "std_scansion"
               (VDict [("type", VStr st); ("mnemonic", VStr sm);
                  ("emeter", VStr se); ("ameter", VStr (e2a_meter se))]))
               "std_scansion") "std_scansion" = true).
  { apply has_key_In. cbn [keys keys_append setattr].
    apply in_or_app. right. now left. }
  unfold get_value, getattr. rewrite Hk1, Hk2.
  cbn [negb attrs keys_append setattr].
  rewrite dict_get_set_same.
  rewrite dict_get_set_other by discriminate. rewrite dict_get_set_same.
  repeat split; reflexivity.
Qed.

Lemma Bahr_init_scansions_witness :
  Bahr_init sample_ZUHAF_ILLA rajz_info [] = (Ok rajz, [rajz]) /\
  get_value rajz "std_scansion" (Some "ameter")
  = Ok (VStr "wswswws wswswws wswswws").
Proof.
  split.
  - vm_compute. reflexivity.
  - destruct (Bahr_init_scansions sample_ZUHAF_ILLA rajz_info [] rajz [rajz])
      as (used & std & _ & _ & Hs & Ha).
    + vm_compute. reflexivity.
    + rewrite Ha. assert (E : VStr std = VStr "--u- --u- --u-").
      { assert (H : Ok (VStr std) = Ok (VStr "--u- --u- --u-"))
          by (rewrite <- Hs; reflexivity).
        now injection H as ->. }
      injection E as ->. reflexivity.
Defined.

(** ** The dictionary of a meter *)

Lemma existsb_key_set {V : Type} (d : list (string * V)) (k k0 : string) (v : V) :
  existsb (fun kv => String.eqb (fst kv) k0) (dict_set d k v)
  = existsb (fun kv => String.eqb (fst kv) k0) d || String.eqb k k0.
Proof.
  induction d as [|[k' v'] d IH]; simpl.
  - now rewrite orb_false_r.
  - destruct (String.eqb_spec k' k) as [->|Hne]; simpl.
    + destruct (String.eqb k k0); simpl; [reflexivity | now rewrite orb_false_r].
    + rewrite IH. now rewrite orb_assoc.
Qed.

Lemma unique_keys_set {V : Type} (d : list (string * V)) (k : string) (v : V) :
  unique_keys d = true -> unique_keys (dict_set d k v) = true.
Proof.
  induction d as [|[k' v'] d IH]; intro H; [reflexivity|].
  cbn [unique_keys] in H. apply andb_prop in H as [Hk Hd].
  cbn [dict_set]. destruct (String.eqb_spec k' k) as [->|Hne].
  - cbn [unique_keys]. now rewrite Hk, Hd.
  - cbn [unique_keys]. rewrite existsb_key_set, (IH Hd).
    apply negb_true_iff in Hk. rewrite Hk. simpl.
    destruct (String.eqb_spec k k'); [congruence | reflexivity].
Qed.









(** ** The enumerations *)

Lemma get_values_loop_named (names : list (string * string * string))
    (buhuur : list Bahr) (attr2 : option string)
    (pick : string * string * string -> value) :
  (forall n b, named_as n b -> get_value b "name" attr2 = Ok (pick n)) ->
  Forall2 named_as names buhuur ->
  forall values,
  get_values_loop buhuur "name" attr2 values = Ok (values ++ map pick names).
Proof.
  intros Hpick H. induction H as [|n b names buhuur Hn _ IH]; intro values.
  - simpl. now rewrite app_nil_r.
  - cbn [get_values_loop map]. rewrite (Hpick n b Hn), IH.
    now rewrite <- app_assoc.
Qed.

Lemma get_value_named (n : string * string * string) (b : Bahr) :
  named_as n b ->
  get_value b "name" None = Ok (name_dict n) /\
  get_value b "name" (Some "arabic") = Ok (VStr (fst (fst n))) /\
  get_value b "name" (Some "english") = Ok (VStr (snd (fst n))) /\
  get_value b "name" (Some "trans") = Ok (VStr (snd n)).
Proof.
  intros [Hk Hd]. unfold get_value, getattr. rewrite Hk, Hd.
  destruct n as [[a e] t]. repeat split; reflexivity.
Qed.

(** X19.  In a registry of meters with name dictionaries the four
    enumerations give the names in the order of registration. *)
Theorem names_enumerated (names : list (string * string * string))
    (buhuur : list Bahr) :
  Forall2 named_as names buhuur ->
  buhuur_get_names buhuur = Ok (map name_dict names) /\
  arabic_names buhuur = Ok (map (fun n => VStr (fst (fst n))) names) /\
  english_names buhuur = Ok (map (fun n => VStr (snd (fst n))) names) /\
  trans_names buhuur = Ok (map (fun n => VStr (snd n)) names).
Proof.
  intro H.
  unfold buhuur_get_names, arabic_names, english_names, trans_names, _get_values.
  repeat split.
  - apply (get_values_loop_named names buhuur None name_dict); [|exact H].
    intros n b Hn. apply (get_value_named n b Hn).
  - apply (get_values_loop_named names buhuur (Some "arabic")
             (fun n => VStr (fst (fst n)))); [|exact H].
    intros n b Hn. apply (get_value_named n b Hn).
  - apply (get_values_loop_named names buhuur (Some "english")
             (fun n => VStr (snd (fst n)))); [|exact H].
    intros n b Hn. apply (get_value_named n b Hn).
  - apply (get_values_loop_named names buhuur (Some "trans")
             (fun n => VStr (snd n))); [|exact H].
    intros n b Hn. apply (get_value_named n b Hn).
Qed.

Lemma names_enumerated_witness :
  english_names sample_buhuur = Ok [VStr "complete"; VStr "trembling"] /\
  trans_names sample_buhuur = Ok [VStr "kāmil"; VStr "rajaz"].
Proof.
  assert (H : Forall2 named_as
                [("كامل", "complete", "kāmil"); ("رجز", "trembling", "rajaz")]
                sample_buhuur) by (repeat constructor).
  destruct (names_enumerated _ _ H) as (_ & _ & He & Ht).
  split; [exact He | exact Ht].
Defined.

(** ** From the enumerations to the lookup *)

Lemma find_index_some {A : Type} (p : A -> bool) (l : list A) (x : A) :
  In x l -> p x = true ->
  exists i y, find_index p l = Some i /\ nth_error l i = Some y /\ p y = true.
Proof.
  induction l as [|a l IH]; intros Hin Hp; [destruct Hin|].
  cbn [find_index]. destruct (p a) eqn:Ha.
  - exists 0, a. repeat split. exact Ha.
  - destruct Hin as [->|Hin]; [congruence|].
    destruct (IH Hin Hp) as (i & y & Hf & Hn & Hy).
    exists (S i), y. rewrite Hf. repeat split; assumption.
Qed.

Lemma Forall2_nth_error {A B : Type} (R : A -> B -> Prop) (l : list A)
    (l' : list B) :
  Forall2 R l l' ->
  forall i x, nth_error l i = Some x ->
  exists y, nth_error l' i = Some y /\ R x y.
Proof.
  induction 1 as [|a b l l' Hab _ IH]; intros i x Hi.
  - destruct i; discriminate.
  - destruct i as [|i]; [injection Hi as <-; now exists b|].
    now apply IH.
Qed.

Lemma names_match_value (name : string) (n : string * string * string)
    (b : Bahr) :
  named_as n b -> names_match name n = true ->
  get_value b "name" (Some (name_type name)) = Ok (VStr name).
Proof.
  intros [Hk Hd] Hm. unfold get_value, getattr. rewrite Hk, Hd.
  unfold names_match in Hm. destruct n as [[a e] t]. cbn [name_dict] in *.
  destruct (name_type_cases name) as [Hl | Hl]; rewrite Hl in *;
    cbn in *; apply String.eqb_eq in Hm; now subst.
Qed.

(** X20.  A name that the enumeration of the entry picked by [name_type]
    lists is found by [get_bahr], in a registered meter that has this name in
    that entry. *)
Theorem get_bahr_enumerated (names : list (string * string * string))
    (buhuur : list Bahr) (vs : list value) (name : string) :
  Forall2 named_as names buhuur ->
  _get_values buhuur "name" (Some (name_type name)) = Ok vs ->
  In (VStr name) vs ->
  exists b,
    In b buhuur /\
    get_bahr buhuur name false = Ok (Some (AsBahr b)) /\
    get_value b "name" (Some (name_type name)) = Ok (VStr name).
Proof.
  intros Hreg Hvs Hin.
  assert (Hn : exists n, In n names /\ names_match name n = true).
  { unfold _get_values in Hvs.
    destruct (name_type_cases name) as [Hl | Hl]; rewrite Hl in Hvs.
    - rewrite (get_values_loop_named names buhuur (Some "english")
                 (fun n => VStr (snd (fst n)))) in Hvs;
        [|intros n b Hb; apply (get_value_named n b Hb) | exact Hreg].
      injection Hvs as <-. apply in_map_iff in Hin as [[[a e] t] [He Hn]].
      exists (a, e, t). split; [exact Hn|].
      unfold names_match. rewrite Hl. cbn in *. injection He as ->.
      apply String.eqb_refl.
    - rewrite (get_values_loop_named names buhuur (Some "arabic")
                 (fun n => VStr (fst (fst n)))) in Hvs;
        [|intros n b Hb; apply (get_value_named n b Hb) | exact Hreg].
      injection Hvs as <-. apply in_map_iff in Hin as [[[a e] t] [He Hn]].
      exists (a, e, t). split; [exact Hn|].
      unfold names_match. rewrite Hl. cbn in *. injection He as ->.
      apply String.eqb_refl. }
  destruct Hn as (n & Hn & Hm).
  destruct (find_index_some (names_match name) names n Hn Hm)
    as (i & n' & Hf & Hi & Hm').
  destruct (Forall2_nth_error _ _ _ Hreg i n' Hi) as (b & Hb & Hnb).
  exists b. split; [now apply (nth_error_In _ i)|]. split.
  - rewrite (get_bahr_named names buhuur name false Hreg), Hf, Hb. reflexivity.
  - now apply (names_match_value name n' b).
Qed.

Lemma get_bahr_enumerated_witness :
  _get_values sample_buhuur "name" (Some (name_type "trembling"))
  = Ok [VStr "complete"; VStr "trembling"] /\
  exists b,
    In b sample_buhuur /\
    get_bahr sample_buhuur "trembling" false = Ok (Some (AsBahr b)) /\
    get_value b "name" (Some (name_type "trembling")) = Ok (VStr "trembling").
Proof.
  split; [reflexivity|].
  apply (get_bahr_enumerated
           [("كامل", "complete", "kāmil"); ("رجز", "trembling", "rajaz")]
           sample_buhuur [VStr "complete"; VStr "trembling"] "trembling").
  - repeat constructor.
  - reflexivity.
  - right. now left.
Defined.

(** ** The values of an attribute over the registry *)

Lemma get_values_loop_aligned (buhuur : list Bahr) (attr1 : string)
    (attr2 : option string) :
  forall values vs,
  get_values_loop buhuur attr1 attr2 values = Ok vs ->
  exists more,
    vs = values ++ more /\
    Forall2 (fun b v => get_value b attr1 attr2 = Ok v) buhuur more.
Proof.
  induction buhuur as [|b rest IH]; intros values vs H.
  - injection H as <-. exists []. split; [now rewrite app_nil_r | constructor].
  - cbn [get_values_loop] in H.
    destruct (get_value b attr1 attr2) as [v|] eqn:Hv; [|discriminate].
    apply IH in H as (more & -> & Hall).
    exists (v :: more). split; [now rewrite <- app_assoc | now constructor].
Qed.

(** X21.  When [_get_values] returns, it returns one value for each
    registered meter, in order: the value [get_value] gives for it. *)
Theorem get_values_aligned (buhuur : list Bahr) (attr1 : string)
    (attr2 : option string) (vs : list value) :
  _get_values buhuur attr1 attr2 = Ok vs ->
  length vs = length buhuur /\
  Forall2 (fun b v => get_value b attr1 attr2 = Ok v) buhuur vs.
Proof.
  intro H. apply get_values_loop_aligned in H as (more & -> & Hall).
  split; [symmetry; now apply (Forall2_length Hall) | exact Hall].
Qed.

Lemma get_values_aligned_witness :
  _get_values sample_buhuur "name" (Some "trans")
  = Ok [VStr "kāmil"; VStr "rajaz"] /\
  length [VStr "kāmil"; VStr "rajaz"] = length sample_buhuur.
Proof.
  split; [reflexivity|].
  exact (proj1 (get_values_aligned sample_buhuur "name" (Some "trans")
                  [VStr "kāmil"; VStr "rajaz"] eq_refl)).
Defined.

(** X22.  [_get_values] raises [BahrError] at the first registered meter
    that lacks the key, whatever meters follow. *)
Theorem get_values_BahrError (pre : list Bahr) (b : Bahr) (post : list Bahr)
    (attr1 : string) (attr2 : option string) :
  forallb (fun b0 => match get_value b0 attr1 attr2 with
                     | Ok _ => true
                     | Raise _ => false
                     end) pre = true ->
  has_key b attr1 = false ->
  _get_values (pre ++ b :: post) attr1 attr2 = Raise (BahrError attr1).
Proof.
  intros Hpre Hb. unfold _get_values. generalize (@nil value).
  induction pre as [|b0 pre IH]; intro values.
  - cbn [app get_values_loop]. unfold get_value. now rewrite Hb.
  - cbn [forallb] in Hpre. apply andb_prop in Hpre as [H0 Hpre].
    cbn [app get_values_loop].
    destruct (get_value b0 attr1 attr2); [|discriminate]. now apply IH.
Qed.

Lemma get_values_BahrError_witness :
  _get_values ([kaamil] ++ init_attrs [("key", VStr "x")] :: [rajz])
    "name" (Some "english")
  = Raise (BahrError "name").
Proof.
  exact (get_values_BahrError [kaamil] (init_attrs [("key", VStr "x")]) [rajz]
           "name" (Some "english") eq_refl eq_refl).
Defined.

(** ** The empty text *)

Lemma startswith_empty (p : string) :
  startswith EmptyString p = true -> p = EmptyString.
Proof. destruct p; [reflexivity | discriminate]. Qed.

Lemma process_empty (foot : Tafiila) (c : ascii) (t text' : string)
    (foot' : Tafiila) :
  process foot EmptyString <> ((Some (String c t), text'), foot').
Proof.
  unfold process.
  destruct (find _ (forms foot)) as [v|] eqn:Hf; [|discriminate].
  apply find_some in Hf as [_ Hs]. apply startswith_empty in Hs.
  rewrite Hs. discriminate.
Qed.

Lemma validate_feet_empty (var : list Tafiila) (x : string) (l : list string)
    (var' : list Tafiila) :
  validate_feet var EmptyString [] <> (Some (x :: l), var').
Proof.
  destruct var as [|foot var]; [discriminate|].
  cbn [validate_feet].
  pose proof (process_empty foot) as Hp.
  destruct (process foot EmptyString) as [[[[|c t]|] text1] foot1];
    try discriminate.
  exfalso. now apply (Hp c t text1 foot1).
Qed.

Lemma validate_vars_empty (m : list (list Tafiila)) :
  fst (validate_vars m EmptyString) = None.
Proof.
  induction m as [|var m IH]; [reflexivity|].
  cbn [validate_vars].
  pose proof (validate_feet_empty var) as Hv.
  destruct (validate_feet var EmptyString []) as [r var1].
  destruct (validate_vars m EmptyString) as [r0 m0]. simpl in IH. subst r0.
  destruct r as [[|x l]|]; try reflexivity.
  exfalso. now apply (Hv x l var1).
Qed.

Lemma validate_empty (b : Bahr) :
  proper b = true -> fst (validate b EmptyString) = Ok None.
Proof.
  unfold proper, validate.
  destruct (dict_get (attrs b) "meter") as [[s|d|m]|]; try discriminate.
  intros _. pose proof (validate_vars_empty m) as H.
  destruct (validate_vars m EmptyString) as [r m']. simpl in *. now subst.
Qed.

(** X23.  The empty text matches no meter: [validate] gives [None] for it
    and [search_bahr] the pair of [None] and [None]. *)
Theorem search_bahr_empty (buhuur : list Bahr) :
  forallb proper buhuur = true ->
  fst (search_bahr buhuur EmptyString) = Ok (None, None) /\
  forall b, In b buhuur -> fst (validate b EmptyString) = Ok None.
Proof.
  intro Hp. split.
  - induction buhuur as [|b rest IH]; [reflexivity|].
    cbn [forallb] in Hp. apply andb_prop in Hp as [Hb Hrest].
    cbn [search_bahr]. pose proof (validate_empty b Hb) as Hv.
    destruct (validate b EmptyString) as [r b']. simpl in Hv. subst r.
    specialize (IH Hrest).
    destruct (search_bahr rest EmptyString) as [r' rest']. exact IH.
  - intros b Hin. apply validate_empty.
    rewrite forallb_forall in Hp. now apply Hp.
Qed.

Lemma search_bahr_empty_witness :
  forallb proper sample_buhuur = true /\
  fst (search_bahr sample_buhuur EmptyString) = Ok (None, None).
Proof.
  split; [reflexivity|].
  exact (proj1 (search_bahr_empty sample_buhuur eq_refl)).
Defined.

(** ** Where the answer of a search comes from *)

(** X24.  An answer of [search_bahr] is the pair of [None] and [None] when
    no registered meter accepts the text, and otherwise a registered meter
    with the breakdown that its [validate] gives, no meter before it
    accepting the text.  No other pair is returned. *)
Theorem search_bahr_sound (buhuur : list Bahr) (emeter : string)
    (ob : option Bahr) (ores : option (list string)) (buhuur' : list Bahr) :
  search_bahr buhuur emeter = (Ok (ob, ores), buhuur') ->
  (ob = None /\ ores = None /\
   forall b, In b buhuur -> accepts b emeter = false) \/
  (exists pre b post b' x l,
     buhuur = pre ++ b :: post /\
     ob = Some b' /\ ores = Some (x :: l) /\
     validate b emeter = (Ok (Some (x :: l)), b') /\
     nth_error buhuur' (length pre) = Some b' /\
     forall b0, In b0 pre -> accepts b0 emeter = false).
Proof.
  revert buhuur'. induction buhuur as [|b rest IH]; intros buhuur' H.
  - injection H as <- <- _. left. repeat split. intros b [].
  - cbn [search_bahr] in H.
    destruct (validate b emeter) as [r b1] eqn:Hv.
    assert (Hnext : accepts b emeter = false ->
              (let '(r', rest') := search_bahr rest emeter in (r', b1 :: rest'))
              = (Ok (ob, ores), buhuur') ->
              (ob = None /\ ores = None /\
               forall b0, In b0 (b :: rest) -> accepts b0 emeter = false) \/
              (exists pre b0 post b' x l,
                 b :: rest = pre ++ b0 :: post /\
                 ob = Some b' /\ ores = Some (x :: l) /\
                 validate b0 emeter = (Ok (Some (x :: l)), b') /\
                 nth_error buhuur' (length pre) = Some b' /\
                 forall b2, In b2 pre -> accepts b2 emeter = false)).
    { intros Hacc H'.
      destruct (search_bahr rest emeter) as [r' rest'] eqn:Hs.
      injection H' as -> <-.
      destruct (IH rest' eq_refl) as [(-> & -> & Hall) |
        (pre & b0 & post & b' & x & l & -> & -> & -> & Hv0 & Hn & Hpre)].
      - left. repeat split. intros b0 [<-|Hin]; [exact Hacc | now apply Hall].
      - right. exists (b :: pre), b0, post, b', x, l.
        repeat split; try assumption.
        intros b2 [<-|Hin]; [exact Hacc | now apply Hpre]. }
    assert (Hacc : forall r0, r = Ok r0 ->
              (forall x l, r0 <> Some (x :: l)) -> accepts b emeter = false).
    { intros r0 -> Hr0. unfold accepts. rewrite Hv. simpl.
      destruct r0 as [[|x l]|]; try reflexivity. exfalso. now apply (Hr0 x l). }
    destruct r as [[[|x l]|]|e].
    + apply Hnext; [apply (Hacc (Some [])); [reflexivity | intros ? ?; discriminate] | exact H].
    + injection H as <- <- <-. right.
      exists [], b, rest, b1, x, l. repeat split; try exact Hv. intros b0 [].
    + apply Hnext; [apply (Hacc None); [reflexivity | intros ? ?; discriminate] | exact H].
    + discriminate.
Qed.

Lemma search_bahr_sound_witness :
  search_bahr sample_buhuur "u-u-u-u-u-u-"
  = (Ok (Some (snd (validate rajz "u-u-u-u-u-u-")),
         Some ["u-u-"; "u-u-"; "u-u-"]),
     snd (search_bahr sample_buhuur "u-u-u-u-u-u-")) /\
  exists pre b post b' x l,
    sample_buhuur = pre ++ b :: post /\
    Some (snd (validate rajz "u-u-u-u-u-u-")) = Some b' /\
    Some ["u-u-"; "u-u-"; "u-u-"] = Some (x :: l) /\
    validate b "u-u-u-u-u-u-" = (Ok (Some (x :: l)), b') /\
    nth_error (snd (search_bahr sample_buhuur "u-u-u-u-u-u-")) (length pre)
    = Some b' /\
    forall b0, In b0 pre -> accepts b0 "u-u-u-u-u-u-" = false.
Proof.
  split; [reflexivity|].
  destruct (search_bahr_sound sample_buhuur "u-u-u-u-u-u-" _ _ _ eq_refl)
    as [(H & _) | H]; [discriminate H | exact H].
Defined.

(** ** What a search leaves as it was *)

Lemma alike_refl (d : list (string * value)) : alike_but_meter d d.
Proof. induction d; constructor; [now split | assumption]. Qed.

Lemma alike_set_meter (d : list (string * value)) (v : value) :
  alike_but_meter d (dict_set d "meter" v) \/
  dict_get d "meter" = None.
Proof.
  induction d as [|[k w] d IH]; [now right|].
  cbn [dict_set dict_get]. destruct (String.eqb_spec k "meter") as [->|Hne].
  - left. constructor; [split; [reflexivity | intro H; now elim H] | apply alike_refl].
  - destruct IH as [IH|IH]; [left | now right].
    constructor; [now split | exact IH].
Qed.

Lemma alike_get (d d' : list (string * value)) (k : string) :
  alike_but_meter d d' -> k <> "meter" -> dict_get d' k = dict_get d k.
Proof.
  intros H Hk. induction H as [|[k1 v1] [k2 v2] d d' [Hkk Hv] _ IH];
    [reflexivity|].
  cbn [fst snd] in *. subst k2. cbn [dict_get].
  destruct (String.eqb_spec k1 k) as [->|Hne]; [|exact IH].
  now rewrite (Hv Hk).
Qed.

Lemma alike_get_some (d d' : list (string * value)) (k : string) :
  alike_but_meter d d' ->
  match dict_get d k, dict_get d' k with
  | Some _, Some _ => True
  | None, None => True
  | _, _ => False
  end.
Proof.
  intro H. induction H as [|[k1 v1] [k2 v2] d d' [Hkk Hv] _ IH]; [exact I|].
  cbn [fst snd] in *. subst k2. cbn [dict_get].
  destruct (String.eqb k1 k); [exact I | exact IH].
Qed.

Lemma alike_set (d d' : list (string * value)) (k : string) (v v' : value) :
  alike_but_meter d d' -> (k <> "meter" -> v = v') ->
  alike_but_meter (dict_set d k v) (dict_set d' k v').
Proof.
  intros H Hv. induction H as [|[k1 v1] [k2 v2] d d' [Hkk Hvv] Hd IH].
  - constructor; [now split | constructor].
  - cbn [fst snd] in *. subst k2. cbn [dict_set].
    destruct (String.eqb_spec k1 k) as [->|Hne].
    + constructor; [now split | assumption].
    + constructor; [now split | exact IH].
Qed.

Lemma alike_keys (d d' : list (string * value)) (k0 : string) :
  alike_but_meter d d' ->
  existsb (fun kv => String.eqb (fst kv) k0) d'
  = existsb (fun kv => String.eqb (fst kv) k0) d.
Proof.
  intro H. induction H as [|kv kv' d d' [Hkk _] _ IH]; [reflexivity|].
  cbn [existsb]. now rewrite IH, Hkk.
Qed.

Lemma alike_no_meter (d d' : list (string * value)) :
  alike_but_meter d d' ->
  existsb (fun kv => String.eqb (fst kv) "meter") d = false -> d = d'.
Proof.
  intro H. induction H as [|[k1 v1] [k2 v2] d d' [Hkk Hv] _ IH];
    [reflexivity|].
  cbn [fst snd existsb] in *. subst k2. intro He.
  apply orb_false_elim in He as [Hk Hd].
  rewrite (IH Hd), Hv; [reflexivity|].
  intros ->. now rewrite String.eqb_refl in Hk.
Qed.

Lemma alike_del_meter (d d' : list (string * value)) :
  alike_but_meter d d' -> unique_keys d = true ->
  dict_del d "meter" = dict_del d' "meter".
Proof.
  intro H. induction H as [|[k1 v1] [k2 v2] d d' [Hkk Hv] Hd IH];
    [reflexivity|].
  cbn [fst snd] in *. subst k2. intro Hu.
  cbn [unique_keys] in Hu. apply andb_prop in Hu as [Hk Hu].
  cbn [dict_del]. destruct (String.eqb_spec k1 "meter") as [->|Hne].
  - apply alike_no_meter; [exact Hd | now apply negb_true_iff].
  - now rewrite (Hv Hne), (IH Hu).
Qed.

Lemma validate_marks_only (b : Bahr) (emeter : string) :
  marks_only b (snd (validate b emeter)).
Proof.
  unfold validate, marks_only.
  destruct (dict_get (attrs b) "meter") as [[s|d|m]|] eqn:Hm;
    try (split; [reflexivity | apply alike_refl]).
  destruct (validate_vars m emeter) as [r m']. cbn [snd setattr keys attrs].
  split; [reflexivity|].
  destruct (alike_set_meter (attrs b) (VMeter m')) as [H|H];
    [exact H | congruence].
Qed.

Lemma get_value_marks_only (b b' : Bahr) (key : string) (key2 : option string) :
  marks_only b b' -> key <> "meter" ->
  get_value b' key key2 = get_value b key key2.
Proof.
  intros [Hk Ha] Hne. unfold get_value, has_key, getattr.
  now rewrite <- Hk, (alike_get _ _ key Ha Hne).
Qed.

Lemma to_dict_loop_marks_only (b b' : Bahr) (ks : list string) :
  marks_only b b' ->
  forall dic dic',
  alike_but_meter dic dic' ->
  match to_dict_loop b ks dic, to_dict_loop b' ks dic' with
  | Ok r, Ok r' => alike_but_meter r r' /\
                   (unique_keys dic = true -> unique_keys r = true)
  | Raise e, Raise e' => e = e'
  | _, _ => False
  end.
Proof.
  intros [Hk Ha]. induction ks as [|k ks IH]; intros dic dic' Hd.
  - cbn. now split.
  - cbn [to_dict_loop]. unfold getattr.
    pose proof (alike_get_some _ _ k Ha) as Hs.
    destruct (dict_get (attrs b) k) as [v|] eqn:Hv,
             (dict_get (attrs b') k) as [v'|] eqn:Hv'; try contradiction;
      [|reflexivity].
    assert (Hvv : k <> "meter" -> v = v').
    { intro Hne. pose proof (alike_get _ _ k Ha Hne) as E. congruence. }
    specialize (IH (dict_set dic k v) (dict_set dic' k v')
                  (alike_set _ _ k v v' Hd Hvv)).
    destruct (to_dict_loop b ks (dict_set dic k v)),
             (to_dict_loop b' ks (dict_set dic' k v')); try exact IH.
    destruct IH as [IH1 IH2]. split; [exact IH1|].
    intro Hu. now apply IH2, unique_keys_set.
Qed.

Lemma to_dict_marks_only (b b' : Bahr) :
  marks_only b b' -> to_dict b' = to_dict b.
Proof.
  intro H. unfold to_dict. rewrite <- (proj1 H).
  pose proof (to_dict_loop_marks_only b b' (keys b) H [] [] (alike_refl []))
    as Hl.
  destruct (to_dict_loop b (keys b) []) as [r|e],
           (to_dict_loop b' (keys b) []) as [r'|e']; try contradiction;
    [|now subst].
  destruct Hl as [Hr Hu].
  pose proof (alike_get_some _ _ "meter" Hr) as Hs.
  destruct (dict_get r "meter"), (dict_get r' "meter"); try contradiction;
    [|reflexivity].
  f_equal. symmetry. apply alike_del_meter; [exact Hr | now apply Hu].
Qed.

Lemma get_bahr_marks_only (w w' : list Bahr) (name : string) :
  Forall2 marks_only w w' -> get_bahr w' name true = get_bahr w name true.
Proof.
  induction 1 as [|b b' w w' Hb _ IH]; [reflexivity|].
  cbn [get_bahr]. unfold test_property.
  rewrite (get_value_marks_only b b' "name" _ Hb) by discriminate.
  destruct (get_value b "name" (Some (name_type name))) as [v|e]; [|reflexivity].
  destruct (value_eq_str v name); [|exact IH].
  now rewrite (to_dict_marks_only b b' Hb).
Qed.

Lemma marks_only_refl (w : list Bahr) : Forall2 marks_only w w.
Proof.
  induction w; constructor; [split; [reflexivity | apply alike_refl] | assumption].
Qed.

Lemma search_bahr_marks_only (w : list Bahr) (emeter : string) :
  Forall2 marks_only w (snd (search_bahr w emeter)).
Proof.
  induction w as [|b rest IH]; [constructor|].
  cbn [search_bahr].
  pose proof (validate_marks_only b emeter) as Hb.
  destruct (validate b emeter) as [r b']. cbn [snd] in Hb.
  destruct (search_bahr rest emeter) as [r' rest']. cbn [snd] in IH.
  destruct r as [[[|x l]|]|e]; cbn [snd]; constructor;
    try exact Hb; try exact IH; apply marks_only_refl.
Qed.

(** X25.  Searches change nothing of what [get_bahr] returns as a
    dictionary. *)
Theorem get_bahr_after_searches (buhuur : list Bahr) (es : list string)
    (name : string) :
  get_bahr (searches buhuur es) name true = get_bahr buhuur name true.
Proof.
  unfold searches. revert buhuur.
  induction es as [|e es IH]; intro buhuur; [reflexivity|].
  cbn [fold_left]. rewrite IH.
  apply get_bahr_marks_only, search_bahr_marks_only.
Qed.
